(** * Authors, magazines and articles: a model of [lib/classes/many_to_many.py]

    The three Python classes [Article], [Author] and [Magazine] are embedded
    over an explicit object store.  An object is a class tag and an instance
    dictionary; the two class attributes [Article.all_articles] and
    [Magazine.all_magazines] are the two registries of the state.  Methods
    are computations in a state-and-exception monad, so that a raised
    [ValueError] and the state it leaves behind can both be observed. *)

From stdpp Require Import gmap strings list fin_maps.

(** * Part I: the program *)

(** ** Values and objects *)

(** A reference is the index of an object in the store. *)
Abbreviation loc := nat (only parsing).

Inductive class := CAuthor | CMagazine | CArticle.

(** The Python values the methods are applied to: [None], integers, strings
    (one [ascii] per character, [len] is [String.length]) and references to
    instances of the three classes.  On these, Python's [==] is structural
    equality: instances define no [__eq__], so they compare by identity. *)
Inductive value :=
| VNone
| VInt (n : Z)
| VStr (s : string)
| VRef (l : loc).

#[global] Instance class_eq_dec : EqDecision class.
Proof. solve_decision. Defined.

#[global] Instance value_eq_dec : EqDecision value.
Proof. solve_decision. Defined.

Definition value_to_sum (v : value) : unit + Z + string + loc :=
  match v with
  | VNone => inl (inl (inl tt))
  | VInt n => inl (inl (inr n))
  | VStr s => inl (inr s)
  | VRef l => inr l
  end.

Definition value_of_sum (x : unit + Z + string + loc) : value :=
  match x with
  | inl (inl (inl _)) => VNone
  | inl (inl (inr n)) => VInt n
  | inl (inr s) => VStr s
  | inr l => VRef l
  end.

#[global] Instance value_countable : Countable value.
Proof.
  apply (inj_countable' value_to_sum value_of_sum).
  by intros [].
Defined.

(** An instance: its class and its [__dict__]. *)
Record object := Object {
  obj_class : class;
  obj_dict : gmap string value
}.

(** The process state: the store, and the two class-level lists. *)
Record state := State {
  heap : list object;
  all_articles : list loc;
  all_magazines : list loc
}.

Definition with_heap (h : list object) (s : state) : state :=
  State h (all_articles s) (all_magazines s).

Definition with_all_articles (l : list loc) (s : state) : state :=
  State (heap s) l (all_magazines s).

Definition with_all_magazines (l : list loc) (s : state) : state :=
  State (heap s) (all_articles s) l.

(** ** The monad of method calls *)

Inductive exn :=
| ValueError (msg : string)
| AttributeError
| AssertionError.

Inductive outcome (A : Type) :=
| Returns (a : A) (s : state)
| Raises (e : exn) (s : state).

Arguments Returns {A} a s.
Arguments Raises {A} e s.

Definition M (A : Type) : Type := state -> outcome A.

Definition ret {A} (a : A) : M A := fun s => Returns a s.

Definition bind {A B} (c : M A) (k : A -> M B) : M B :=
  fun s =>
    match c s with
    | Returns a s' => k a s'
    | Raises e s' => Raises e s'
    end.

Definition raise {A} (e : exn) : M A := fun s => Raises e s.

Notation "'do' x <- c ; k" := (bind c (fun x => k))
  (at level 10, x name, c at level 100, k at level 200).

Definition final_state {A} (o : outcome A) : state :=
  match o with
  | Returns _ s => s
  | Raises _ s => s
  end.

(** [for x in l] collecting the elements that pass a test: a list
    comprehension with a condition. *)
Fixpoint filterM {A} (p : A -> M bool) (l : list A) : M (list A) :=
  match l with
  | [] => ret []
  | x :: l' =>
      do b <- p x;
      do r <- filterM p l';
      ret (if b : bool then x :: r else r)
  end.

(** [for x in l] collecting [f x]. *)
Fixpoint mapM {A B} (f : A -> M B) (l : list A) : M (list B) :=
  match l with
  | [] => ret []
  | x :: l' =>
      do y <- f x;
      do r <- mapM f l';
      ret (y :: r)
  end.

(** ** Primitive operations on objects *)

Definition class_of (s : state) (v : value) : option class :=
  match v with
  | VRef l => obj_class <$> heap s !! l
  | _ => None
  end.

(** [isinstance(v, C)] for one of the three classes (none has subclasses). *)
Definition isinstance (v : value) (c : class) : M bool :=
  fun s => Returns (bool_decide (class_of s v = Some c)) s.

(** [isinstance(v, str)]. *)
Definition is_str (v : value) : bool :=
  match v with
  | VStr _ => true
  | _ => false
  end.

(** [len(v)]; the code only evaluates it behind [isinstance(v, str)]. *)
Definition len (v : value) : nat :=
  match v with
  | VStr t => String.length t
  | _ => 0
  end.

(** Allocation of a fresh instance with an empty [__dict__]. *)
Definition new (c : class) : M loc :=
  fun s => Returns (length (heap s)) (with_heap (heap s ++ [Object c ∅]) s).

(** A plain attribute write, [self.name = v], into the instance dictionary. *)
Definition setattr (self : loc) (name : string) (v : value) : M unit :=
  fun s =>
    match heap s !! self with
    | Some o =>
        Returns tt
          (with_heap (<[self := Object (obj_class o) (<[name := v]> (obj_dict o))]> (heap s)) s)
    | None => Raises AttributeError s
    end.

(** A plain attribute read from the instance dictionary. *)
Definition getattr (v : value) (name : string) : M value :=
  fun s =>
    match v with
    | VRef l =>
        match heap s !! l with
        | Some o =>
            match obj_dict o !! name with
            | Some x => Returns x s
            | None => Raises AttributeError s
            end
        | None => Raises AttributeError s
        end
    | _ => Raises AttributeError s
    end.

(** ** class Article *)

Definition Article_get_all_articles : M (list loc) :=
  fun s => Returns (all_articles s) s.

Definition Article_all_articles_append (self : loc) : M unit :=
  fun s => Returns tt (with_all_articles (all_articles s ++ [self]) s).

Definition Article__init__ (self : loc) (author magazine title : value) : M unit :=
  do a_ok <- isinstance author CAuthor;
  if negb a_ok
  then raise (ValueError "Author must be an instance of the Author class.")
  else
    do m_ok <- isinstance magazine CMagazine;
    if negb m_ok
    then raise (ValueError "Magazine must be an instance of the Magazine class.")
    else
      if negb (is_str title) || negb ((5 <=? len title) && (len title <=? 50))
      then raise (ValueError "Title must be a string between 5 and 50 characters.")
      else
        do _ <- setattr self "author" author;
        do _ <- setattr self "magazine" magazine;
        do _ <- setattr self "title" title;
        Article_all_articles_append self.

(** The call [Article(author, magazine, title)]. *)
Definition Article_new (author magazine title : value) : M loc :=
  do self <- new CArticle;
  do _ <- Article__init__ self author magazine title;
  ret self.

(** Python's [a == b] on the values above. *)
Definition py_eq (a b : value) : bool := bool_decide (a = b).

(** [list({...})]: the distinct elements of a set comprehension, in the
    iteration order of the set. *)
Definition list_of_set (l : list value) : list value :=
  elements (list_to_set l : gset value).

(** ** class Author *)

Definition Author__init__ (self : loc) (name : value) : M unit :=
  if negb (is_str name) || (len name =? 0)
  then raise (ValueError "Name must be a non-empty string.")
  else setattr self "name" name.

(** The call [Author(name)]. *)
Definition Author_new (name : value) : M loc :=
  do self <- new CAuthor;
  do _ <- Author__init__ self name;
  ret self.

Definition Author_articles (self : loc) : M (list loc) :=
  do articles <- Article_get_all_articles;
  filterM (fun article =>
             do a <- getattr (VRef article) "author";
             ret (py_eq a (VRef self)))
          articles.

Definition Author_magazines (self : loc) : M (list value) :=
  do articles <- Author_articles self;
  do ms <- mapM (fun article => getattr (VRef article) "magazine") articles;
  ret (list_of_set ms).

Definition Author_add_article (self : loc) (magazine title : value) : M loc :=
  do m_ok <- isinstance magazine CMagazine;
  if negb m_ok
  then raise (ValueError "Magazine must be an instance of the Magazine class.")
  else
    if negb (is_str title)
    then raise (ValueError "Title must be a string.")
    else Article_new (VRef self) magazine title.

(** ** class Magazine *)

Definition Magazine_all_magazines_append (self : loc) : M unit :=
  fun s => Returns tt (with_all_magazines (all_magazines s ++ [self]) s).

(** The property [name]: getter and validating setter over [_name]. *)
Definition Magazine_name (self : loc) : M value :=
  getattr (VRef self) "_name".

Definition Magazine_name_setter (self : loc) (value : value) : M unit :=
  if negb (is_str value) || negb ((2 <=? len value) && (len value <=? 16))
  then raise (ValueError "Name must be a string between 2 and 16 characters.")
  else setattr self "_name" value.

(** The property [category]: getter and validating setter over [_category]. *)
Definition Magazine_category (self : loc) : M value :=
  getattr (VRef self) "_category".

Definition Magazine_category_setter (self : loc) (value : value) : M unit :=
  if negb (is_str value) || (len value =? 0)
  then raise (ValueError "Category must be a non-empty string.")
  else setattr self "_category" value.

Definition Magazine__init__ (self : loc) (name category : value) : M unit :=
  do _ <- Magazine_name_setter self name;
  do _ <- Magazine_category_setter self category;
  Magazine_all_magazines_append self.

(** The call [Magazine(name, category)]. *)
Definition Magazine_new (name category : value) : M loc :=
  do self <- new CMagazine;
  do _ <- Magazine__init__ self name category;
  ret self.

Definition Magazine_articles (self : loc) : M (list loc) :=
  do articles <- Article_get_all_articles;
  filterM (fun article =>
             do m <- getattr (VRef article) "magazine";
             ret (py_eq m (VRef self)))
          articles.

Definition Magazine_contributors (self : loc) : M (list value) :=
  do articles <- Magazine_articles self;
  do authors <- mapM (fun article => getattr (VRef article) "author") articles;
  ret (list_of_set authors).

Definition Magazine_article_titles (self : loc) : M (option (list value)) :=
  do articles <- Magazine_articles self;
  do titles <- mapM (fun article => getattr (VRef article) "title") articles;
  ret (if titles is [] then None else Some titles).

(** ** Attribute access and method calls on an arbitrary value *)

(** [v.category]: the property when [v] is a Magazine (a property takes
    precedence over the instance dictionary), a plain read otherwise. *)
Definition get_category (v : value) : M value :=
  fun s =>
    match v, class_of s v with
    | VRef l, Some CMagazine => Magazine_category l s
    | _, _ => getattr v "category" s
    end.

(** [v.articles()]: both Author and Magazine define the method. *)
Definition call_articles (v : value) : M (list loc) :=
  fun s =>
    match v, class_of s v with
    | VRef l, Some CAuthor => Author_articles l s
    | VRef l, Some CMagazine => Magazine_articles l s
    | _, _ => Raises AttributeError s
    end.

Definition Author_topic_areas (self : loc) : M (option (list value)) :=
  do magazines <- Author_magazines self;
  if magazines is [] then ret None
  else
    do categories <- mapM get_category magazines;
    ret (Some (list_of_set categories)).

Definition Magazine_contributing_authors (self : loc) : M (option (list value)) :=
  do authors <- Magazine_contributors self;
  if authors is [] then ret None
  else
    do frequent_authors <-
      filterM (fun author =>
                 do articles <- call_articles author;
                 do hits <- filterM (fun article =>
                                    do m <- getattr (VRef article) "magazine";
                                    ret (py_eq m (VRef self)))
                                 articles;
                 ret (2 <? sum_list ((fun _ => 1) <$> hits)))
              authors;
    ret (if frequent_authors is [] then None else Some frequent_authors).

(** ** Dictionaries keyed by magazines, [any] and [max] *)

(** A [dict] keeps its keys in the order of their first insertion;
    writing an existing key replaces its value in place. *)
Definition dict := list (loc * nat).

Fixpoint dict_set (d : dict) (k : loc) (v : nat) : dict :=
  match d with
  | [] => [(k, v)]
  | (k', v') :: d' =>
      if decide (k = k') then (k, v) :: d' else (k', v') :: dict_set d' k v
  end.

Fixpoint dict_get (d : dict) (k : loc) : option nat :=
  match d with
  | [] => None
  | (k', v') :: d' => if decide (k = k') then Some v' else dict_get d' k
  end.

Definition dict_keys (d : dict) : list loc := d.*1.

Definition dict_values (d : dict) : list nat := d.*2.

(** [any(xs)] on integers: some element is not zero. *)
Definition py_any (xs : list nat) : bool :=
  existsb (fun x => negb (x =? 0)) xs.

(** [max(xs, key=key)]: the running best is replaced only by a strictly
    larger element, so the first maximal element is returned; an empty
    argument is an error. *)
Fixpoint max_from {A} (key : A -> nat) (best : A) (xs : list A) : A :=
  match xs with
  | [] => best
  | x :: xs' => max_from key (if key best <? key x then x else best) xs'
  end.

Definition py_max {A} (key : A -> nat) (xs : list A) : option A :=
  match xs with
  | [] => None
  | x :: xs' => Some (max_from key x xs')
  end.

(** [{magazine: len(magazine.articles()) for magazine in ms}], from the
    entries [d] collected so far. *)
Fixpoint count_articles (d : dict) (ms : list loc) : M dict :=
  match ms with
  | [] => ret d
  | magazine :: ms' =>
      do articles <- call_articles (VRef magazine);
      count_articles (dict_set d magazine (length articles)) ms'
  end.

Definition magazine_article_counts : M dict :=
  fun s => count_articles [] (all_magazines s) s.

(** [magazine_article_counts.get], applied by [max] to the keys of the
    same dictionary, where it always finds a count. *)
Definition counts_get (d : dict) (k : loc) : nat :=
  default 0 (dict_get d k).

Definition Magazine_top_publisher : M (option loc) :=
  do articles <- Article_get_all_articles;
  if articles is [] then ret None
  else
    do counts <- magazine_article_counts;
    if negb (py_any (dict_values counts)) then ret None
    else
      match py_max (counts_get counts) (dict_keys counts) with
      | Some m => ret (Some m)
      | None => raise (ValueError "max() arg is an empty sequence")
      end.

(** ** The variant of [top_publisher] in [lib/testing/article_test.py]

    The test module defines the three classes again.  Its copies are those
    of [many_to_many.py] word for word, except for [top_publisher], which
    tests the dictionary of counts itself instead of [any] of its values. *)

Definition Magazine_top_publisher_test : M (option loc) :=
  do articles <- Article_get_all_articles;
  if articles is [] then ret None
  else
    do counts <- magazine_article_counts;
    if counts is [] then ret None
    else
      match py_max (counts_get counts) (dict_keys counts) with
      | Some m => ret (Some m)
      | None => raise (ValueError "max() arg is an empty sequence")
      end.

(** ** The module-level test

    [many_to_many.py] ends by running [test_top_publisher()], so importing
    the module leaves the state built by that test. *)

Definition reset_registries : M unit :=
  fun s => Returns tt (State (heap s) [] []).

Definition test_top_publisher : M unit :=
  do _ <- reset_registries;
  do mag1 <- Magazine_new (VStr "Tech Today") (VStr "Technology");
  do mag2 <- Magazine_new (VStr "Health Matters") (VStr "Health");
  do author1 <- Author_new (VStr "Alice");
  do author2 <- Author_new (VStr "Bob");
  do article1 <- Article_new (VRef author1) (VRef mag1) (VStr "Latest Tech Trends");
  do article2 <- Article_new (VRef author2) (VRef mag1) (VStr "AI in Healthcare");
  do article3 <- Article_new (VRef author1) (VRef mag2) (VStr "Dietary Tips for 2024");
  do top_magazine <- Magazine_top_publisher;
  if bool_decide (top_magazine = Some mag1) then ret tt else raise AssertionError.

Definition empty_state : state := State [] [] [].

(** The state after the import: objects 0 and 1 are the two magazines,
    2 and 3 the authors Alice and Bob, 4, 5 and 6 the three articles. *)
Definition module_state : state := final_state (test_top_publisher empty_state).

(** ** Attribute assignment and the calls of a client *)

(** [self.name = v] for any instance: the two properties of Magazine are
    data descriptors and run their setters, everything else is a plain
    write. *)
Definition assign (self : loc) (name : string) (v : value) : M unit :=
  fun s =>
    match class_of s (VRef self) with
    | Some CMagazine =>
        if decide (name = "name") then Magazine_name_setter self v s
        else if decide (name = "category") then Magazine_category_setter self v s
        else setattr self name v s
    | _ => setattr self name v s
    end.

(** The calls a client of the three classes can make. *)
Inductive call :=
| NewAuthor (name : value)
| NewMagazine (name category : value)
| NewArticle (author magazine title : value)
| Assign (self : loc) (name : string) (v : value)
| GetAllArticles
| AuthorArticles (self : loc)
| AuthorMagazines (self : loc)
| AuthorAddArticle (self : loc) (magazine title : value)
| AuthorTopicAreas (self : loc)
| MagazineName (self : loc)
| MagazineCategory (self : loc)
| MagazineArticles (self : loc)
| MagazineContributors (self : loc)
| MagazineArticleTitles (self : loc)
| MagazineContributingAuthors (self : loc)
| TopPublisher.

(** The state after a call, whether it returned or raised. *)
Definition run (c : call) (s : state) : state :=
  match c with
  | NewAuthor name => final_state (Author_new name s)
  | NewMagazine name category => final_state (Magazine_new name category s)
  | NewArticle author magazine title => final_state (Article_new author magazine title s)
  | Assign self name v => final_state (assign self name v s)
  | GetAllArticles => final_state (Article_get_all_articles s)
  | AuthorArticles self => final_state (Author_articles self s)
  | AuthorMagazines self => final_state (Author_magazines self s)
  | AuthorAddArticle self magazine title =>
      final_state (Author_add_article self magazine title s)
  | AuthorTopicAreas self => final_state (Author_topic_areas self s)
  | MagazineName self => final_state (Magazine_name self s)
  | MagazineCategory self => final_state (Magazine_category self s)
  | MagazineArticles self => final_state (Magazine_articles self s)
  | MagazineContributors self => final_state (Magazine_contributors self s)
  | MagazineArticleTitles self => final_state (Magazine_article_titles self s)
  | MagazineContributingAuthors self =>
      final_state (Magazine_contributing_authors self s)
  | TopPublisher => final_state (Magazine_top_publisher s)
  end.

(** * Part II: the vocabulary of the specification *)

(** ** Reading the state *)

(** The value of attribute [name] in the dictionary of object [l]. *)
Definition attr (s : state) (l : loc) (name : string) : option value :=
  o ← heap s !! l; obj_dict o !! name.

Definition allocated (s : state) (l : loc) : Prop := l < length (heap s).

#[global] Instance allocated_dec s l : Decision (allocated s l).
Proof. unfold allocated; apply _. Defined.

(** What the specification calls a valid title, name and category. *)
Definition valid_title (title : value) : Prop :=
  match title with
  | VStr t => 5 ≤ String.length t ≤ 50
  | _ => False
  end.

Definition valid_name (name : value) : Prop :=
  match name with
  | VStr t => 2 ≤ String.length t ≤ 16
  | _ => False
  end.

Definition valid_category (category : value) : Prop :=
  match category with
  | VStr t => String.length t ≠ 0
  | _ => False
  end.

Definition valid_article (s : state) (author magazine title : value) : Prop :=
  class_of s author = Some CAuthor ∧
  class_of s magazine = Some CMagazine ∧
  valid_title title.

#[global] Instance valid_title_dec title : Decision (valid_title title).
Proof. destruct title; simpl; apply _. Defined.

#[global] Instance valid_name_dec name : Decision (valid_name name).
Proof. destruct name; simpl; apply _. Defined.

#[global] Instance valid_category_dec category : Decision (valid_category category).
Proof. destruct category; simpl; apply _. Defined.

#[global] Instance valid_article_dec s a m t : Decision (valid_article s a m t).
Proof. unfold valid_article; apply _. Defined.

(** A registered article is an Article instance carrying its three
    attributes. *)
Definition article_ok (s : state) (l : loc) : Prop :=
  class_of s (VRef l) = Some CArticle ∧
  is_Some (attr s l "author") ∧
  is_Some (attr s l "magazine") ∧
  is_Some (attr s l "title").

(** The invariant of the two registries: each holds an instance at most
    once, every registered article is well formed and every registered
    magazine is a Magazine instance.  Every call preserves it (see
    [registry_ok_run] below). *)
Definition registry_ok (s : state) : Prop :=
  NoDup (all_articles s) ∧
  Forall (article_ok s) (all_articles s) ∧
  NoDup (all_magazines s) ∧
  Forall (fun m => class_of s (VRef m) = Some CMagazine) (all_magazines s).

(** The articles of the registry whose attribute [name] is the instance
    [self], in registry order. *)
Definition articles_with (s : state) (name : string) (self : loc) : list loc :=
  filter (fun article => attr s article name = Some (VRef self)) (all_articles s).

(** The number of registered articles of magazine [m]. *)
Definition article_count (s : state) (m : loc) : nat :=
  length (articles_with s "magazine" m).

#[global] Instance article_ok_dec s l : Decision (article_ok s l).
Proof. unfold article_ok; apply _. Defined.

#[global] Instance registry_ok_dec s : Decision (registry_ok s).
Proof. unfold registry_ok; apply _. Defined.

(** The states that differ from [s] only by objects allocated after it:
    same registries, and every object of [s] unchanged. *)
Definition unaltered (s s' : state) : Prop :=
  all_articles s' = all_articles s ∧
  all_magazines s' = all_magazines s ∧
  ∀ l, allocated s l → heap s' !! l = heap s !! l.

(** A client that creates one article per triple, in order. *)
Definition create_all (args : list (value * value * value)) : M (list loc) :=
  mapM (fun '(author, magazine, title) => Article_new author magazine title) args.

(** Two valid triples over the state left by the module-level test. *)
Definition two_articles : list (value * value * value) :=
  [(VRef 2, VRef 1, VStr "Sleep and Memory");
   (VRef 3, VRef 0, VStr "Compilers at Night")].

(** The instance dictionaries that the constructors build. *)
Definition article_dict (author magazine title : value) : gmap string value :=
  <["title" := title]> (<["magazine" := magazine]> (<["author" := author]> ∅)).

Definition magazine_dict (name category : value) : gmap string value :=
  <["_category" := category]> (<["_name" := name]> ∅).

(** The state after a plain write to an allocated object. *)
Definition update_attr (s : state) (l : loc) (name : string) (v : value) : state :=
  match heap s !! l with
  | Some o => with_heap (<[l := Object (obj_class o) (<[name := v]> (obj_dict o))]> (heap s)) s
  | None => s
  end.

(** The value of attribute [name] of a registered article. *)
Definition attr_of (s : state) (name : string) (article : loc) : value :=
  default VNone (attr s article name).

(** The dictionary that [top_publisher] builds. *)
Definition counts_of (s : state) : dict :=
  (fun m => (m, article_count s m)) <$> all_magazines s.

(** The result of [top_publisher], read off the registries. *)
Definition top_of (s : state) : option loc :=
  if all_articles s is [] then None
  else if py_any (article_count s <$> all_magazines s)
       then py_max (article_count s) (all_magazines s)
       else None.

(** A computation that leaves the state as it found it. *)
Definition read_only {A} (c : M A) : Prop := ∀ s, final_state (c s) = s.

(** The five ways in which a call can leave the state. *)
Inductive step (s : state) : state → Prop :=
| step_same : step s s
| step_alloc o : step s (with_heap (heap s ++ [o]) s)
| step_article author magazine title :
    step s (State (heap s ++ [Object CArticle (article_dict author magazine title)])
                  (all_articles s ++ [length (heap s)])
                  (all_magazines s))
| step_magazine name category :
    step s (State (heap s ++ [Object CMagazine (magazine_dict name category)])
                  (all_articles s)
                  (all_magazines s ++ [length (heap s)]))
| step_update l name v : step s (update_attr s l name v).

(** The article's [magazine] attribute is a Magazine instance that has a
    category: what [Article(...)] stores when given a constructed Magazine. *)
Definition published_in_magazine (s : state) (article : loc) : Prop :=
  match attr s article "magazine" with
  | Some (VRef m) =>
      class_of s (VRef m) = Some CMagazine ∧ is_Some (attr s m "_category")
  | _ => False
  end.

#[global] Instance published_in_magazine_dec s article :
  Decision (published_in_magazine s article).
Proof.
  unfold published_in_magazine.
  destruct (attr s article "magazine") as [[]|]; apply _.
Defined.

(** The category stored in the magazine [v]. *)
Definition category_of (s : state) (v : value) : value :=
  match v with
  | VRef m => attr_of s "_category" m
  | _ => VNone
  end.

(** The article's [author] attribute is an Author instance: what
    [Article(...)] stores. *)
Definition written_by_author (s : state) (article : loc) : Prop :=
  match attr s article "author" with
  | Some v => class_of s v = Some CAuthor
  | None => False
  end.

#[global] Instance written_by_author_dec s article :
  Decision (written_by_author s article).
Proof. unfold written_by_author. destruct (attr s article "author"); apply _. Defined.

(** The number of articles of author [a] whose magazine is [m]. *)
Definition written_for (s : state) (a m : loc) : nat :=
  length (filter (fun article => attr s article "magazine" = Some (VRef m))
                 (articles_with s "author" a)).

(** [v] is an author with more than 2 articles in magazine [m]. *)
Definition frequent (s : state) (m : loc) (v : value) : Prop :=
  match v with
  | VRef a => 2 < written_for s a m
  | _ => False
  end.

#[global] Instance frequent_dec s m v : Decision (frequent s m v).
Proof. destruct v; simpl; apply _. Defined.

(** The module state after Alice has written two more articles for the
    first magazine. *)
Definition busy_state : state :=
  final_state
    (create_all [(VRef 2, VRef 0, VStr "Compilers at Night");
                 (VRef 2, VRef 0, VStr "Proofs at Dawn")] module_state).

(** What [Author(name)] accepts as a name. *)
Definition nonempty_string (v : value) : Prop :=
  match v with
  | VStr t => String.length t ≠ 0
  | _ => False
  end.

#[global] Instance nonempty_string_dec v : Decision (nonempty_string v).
Proof. destruct v; simpl; apply _. Defined.

(** Every reference stored as the magazine of a registered article points
    to an object of the store: no registered article names an instance that
    does not exist yet. *)
Definition magazine_refs_allocated (s : state) : Prop :=
  Forall (fun article =>
            match attr s article "magazine" with
            | Some (VRef m) => allocated s m
            | _ => True
            end) (all_articles s).

#[global] Instance magazine_refs_allocated_dec s : Decision (magazine_refs_allocated s).
Proof.
  unfold magazine_refs_allocated. apply Forall_dec. intros article.
  destruct (attr s article "magazine") as [[]|]; apply _.
Defined.

(** The message [Article(...)] raises with: the first failing check in the
    order author, magazine, title. *)
Definition Article_error (s : state) (author magazine : value) : string :=
  if decide (class_of s author = Some CAuthor)
  then if decide (class_of s magazine = Some CMagazine)
       then "Title must be a string between 5 and 50 characters."
       else "Magazine must be an instance of the Magazine class."
  else "Author must be an instance of the Author class.".

(** The message [Magazine(...)] raises with: the name is checked first. *)
Definition Magazine_error (name : value) : string :=
  if decide (valid_name name)
  then "Category must be a non-empty string."
  else "Name must be a string between 2 and 16 characters.".

(** The module state after the three articles have lost their magazine:
    [article.magazine = None] for each of them. *)
Definition orphaned_state : state :=
  foldl (flip run) module_state
    [Assign 4 "magazine" VNone; Assign 5 "magazine" VNone; Assign 6 "magazine" VNone].

(** The module state after [article.author = 7] on the first article. *)
Definition anonymous_state : state :=
  run (Assign 4 "author" (VInt 7)) module_state.

(** A value on which [v.articles()] is an [AttributeError]: anything but
    an Author or a Magazine instance. *)
Definition no_articles_method (s : state) (v : value) : Prop :=
  class_of s v ≠ Some CAuthor ∧ class_of s v ≠ Some CMagazine.

#[global] Instance no_articles_method_dec s v : Decision (no_articles_method s v).
Proof. unfold no_articles_method; apply _. Defined.

(** A value that is no instance at all: [None], an integer or a string. *)
Definition not_an_instance (v : value) : Prop :=
  match v with
  | VRef _ => False
  | _ => True
  end.

#[global] Instance not_an_instance_dec v : Decision (not_an_instance v).
Proof. destruct v; simpl; apply _. Defined.

#[global] Typeclasses Opaque nonempty_string magazine_refs_allocated
  no_articles_method not_an_instance.

(** * Part III: properties *)

Example test_top_publisher_passes :
  ∃ s, test_top_publisher empty_state = Returns tt s.
Proof. eexists. vm_compute. reflexivity. Qed.

Example module_state_ok : registry_ok module_state.
Proof. compute_done. Qed.

(** ** The store under allocation and attribute writes *)

Section store_extension.

Variables (h : list object) (o : object) (ra rm : list loc).

Lemma setattr_last name v :
  setattr (length h) name v (State (h ++ [o]) ra rm) =
  Returns tt (State (h ++ [Object (obj_class o) (<[name := v]> (obj_dict o))]) ra rm).
Proof.
  unfold setattr, with_heap; simpl.
  rewrite list_lookup_middle by done.
  rewrite insert_app_r_alt by lia.
  by rewrite Nat.sub_diag.
Qed.

Lemma class_of_alloc v c :
  obj_class o ≠ c →
  class_of (State (h ++ [o]) ra rm) v = Some c ↔ class_of (State h ra rm) v = Some c.
Proof.
  intros Hne. destruct v as [| | |l]; simpl; try done.
  destruct (decide (l < length h)) as [Hl|Hl].
  - by rewrite lookup_app_l.
  - rewrite (lookup_ge_None_2 h l) by lia.
    rewrite lookup_app_r by lia.
    destruct (l - length h) as [|n]; simpl; [|done].
    split; [intros [=]; done | done].
Qed.

Lemma class_of_extend v c :
  class_of (State h ra rm) v = Some c →
  class_of (State (h ++ [o]) ra rm) v = Some c.
Proof.
  destruct v as [| | |l]; simpl; try done.
  intros Hl. destruct (h !! l) as [o'|] eqn:E; [|done].
  by rewrite (lookup_app_l_Some _ _ _ _ E).
Qed.

Lemma isinstance_alloc v c :
  obj_class o ≠ c →
  bool_decide (class_of (State (h ++ [o]) ra rm) v = Some c) =
  bool_decide (class_of (State h ra rm) v = Some c).
Proof. intros Hne. by apply bool_decide_ext, class_of_alloc. Qed.

Lemma attr_last name :
  attr (State (h ++ [o]) ra rm) (length h) name = obj_dict o !! name.
Proof. unfold attr; simpl. by rewrite list_lookup_middle. Qed.

Lemma class_of_last :
  class_of (State (h ++ [o]) ra rm) (VRef (length h)) = Some (obj_class o).
Proof. simpl. by rewrite list_lookup_middle. Qed.

End store_extension.

Lemma is_str_valid_title title :
  negb (is_str title) || negb ((5 <=? len title) && (len title <=? 50)) = false
  ↔ valid_title title.
Proof.
  destruct title; cbn [is_str len negb orb valid_title]; try (split; [done | tauto]).
  rewrite negb_false_iff, andb_true_iff, !Nat.leb_le. tauto.
Qed.

Lemma is_str_valid_name name :
  negb (is_str name) || negb ((2 <=? len name) && (len name <=? 16)) = false
  ↔ valid_name name.
Proof.
  destruct name; cbn [is_str len negb orb valid_name]; try (split; [done | tauto]).
  rewrite negb_false_iff, andb_true_iff, !Nat.leb_le. tauto.
Qed.

Lemma is_str_valid_category category :
  negb (is_str category) || (len category =? 0) = false ↔ valid_category category.
Proof.
  destruct category; cbn [is_str len negb orb valid_category]; try (split; [done | tauto]).
  by rewrite Nat.eqb_neq.
Qed.

(** ** The constructors, as equations *)

(** Runs a constructor symbolically on a state whose last object is the
    instance under construction. *)
Ltac run_init :=
  repeat first
    [ rewrite isinstance_alloc by done
    | rewrite bool_decide_eq_true_2 by done
    | rewrite setattr_last
    | match goal with H : _ = false |- _ => rewrite H end
    | progress cbn [heap all_articles all_magazines obj_class obj_dict negb] ].

Lemma Article_new_valid s author magazine title :
  valid_article s author magazine title →
  Article_new author magazine title s =
  Returns (length (heap s))
    (State (heap s ++ [Object CArticle (article_dict author magazine title)])
           (all_articles s ++ [length (heap s)])
           (all_magazines s)).
Proof.
  destruct s as [h ra rm]. intros (Ha & Hm & Ht).
  apply is_str_valid_title in Ht.
  unfold Article_new, Article__init__, new, isinstance, bind, with_heap.
  by run_init.
Qed.

Lemma Article_new_invalid s author magazine title :
  ¬ valid_article s author magazine title →
  ∃ msg, Article_new author magazine title s =
         Raises (ValueError msg) (with_heap (heap s ++ [Object CArticle ∅]) s).
Proof.
  destruct s as [h ra rm]. intros Hv.
  unfold Article_new, Article__init__, new, isinstance, bind, with_heap.
  run_init.
  case_bool_decide as Ha; run_init; [|by eexists].
  case_bool_decide as Hm; run_init; [|by eexists].
  destruct (negb (is_str title) || _) eqn:Ht; [by eexists|].
  apply is_str_valid_title in Ht. by destruct Hv.
Qed.

Lemma Magazine_new_valid s name category :
  valid_name name → valid_category category →
  Magazine_new name category s =
  Returns (length (heap s))
    (State (heap s ++ [Object CMagazine (magazine_dict name category)])
           (all_articles s)
           (all_magazines s ++ [length (heap s)])).
Proof.
  destruct s as [h ra rm]. intros Hn Hc.
  apply is_str_valid_name in Hn. apply is_str_valid_category in Hc.
  unfold Magazine_new, Magazine__init__, Magazine_name_setter,
    Magazine_category_setter, new, bind, with_heap.
  by run_init.
Qed.

Lemma Magazine_new_invalid s name category :
  ¬ (valid_name name ∧ valid_category category) →
  ∃ msg o, obj_class o = CMagazine ∧
    Magazine_new name category s =
    Raises (ValueError msg) (with_heap (heap s ++ [o]) s).
Proof.
  destruct s as [h ra rm]. intros Hv.
  unfold Magazine_new, Magazine__init__, Magazine_name_setter,
    Magazine_category_setter, new, bind, with_heap.
  run_init.
  destruct (negb (is_str name) || _) eqn:Hn; [do 2 eexists; split; [|reflexivity]; done|].
  run_init.
  destruct (negb (is_str category) || _) eqn:Hc; [do 2 eexists; split; [|reflexivity]; done|].
  apply is_str_valid_name in Hn. apply is_str_valid_category in Hc. tauto.
Qed.

Lemma Author_new_valid s name :
  valid_category name →
  Author_new name s =
  Returns (length (heap s))
    (with_heap (heap s ++ [Object CAuthor (<["name" := name]> ∅)]) s).
Proof.
  destruct s as [h ra rm]. intros Hn. apply is_str_valid_category in Hn.
  unfold Author_new, Author__init__, new, bind, with_heap.
  by run_init.
Qed.

Lemma Author_new_invalid s name :
  ¬ valid_category name →
  ∃ msg, Author_new name s =
         Raises (ValueError msg) (with_heap (heap s ++ [Object CAuthor ∅]) s).
Proof.
  destruct s as [h ra rm]. intros Hv.
  unfold Author_new, Author__init__, new, bind, with_heap.
  run_init.
  destruct (negb (is_str name) || _) eqn:Hn; [by eexists|].
  by apply is_str_valid_category in Hn.
Qed.

(** ** Queries are scans of the registry *)

Lemma getattr_attr s l name :
  getattr (VRef l) name s =
  match attr s l name with
  | Some v => Returns v s
  | None => Raises AttributeError s
  end.
Proof. unfold getattr, attr. by destruct (heap s !! l). Qed.

Lemma Returns_inj {A} (a b : A) s s' : Returns a s = Returns b s' → a = b.
Proof. by intros [= -> _]. Qed.

Lemma bind_eq {A B} (c : M A) (k : A → M B) s a s' :
  c s = Returns a s' → bind c k s = k a s'.
Proof. unfold bind. by intros ->. Qed.

Lemma filterM_pure {A} (p : A → M bool) (P : A → Prop) `{!∀ x, Decision (P x)} l s :
  (∀ x, x ∈ l → p x s = Returns (bool_decide (P x)) s) →
  filterM p l s = Returns (filter P l) s.
Proof.
  induction l as [|x l IH]; intros Hp; [done|].
  cbn [filterM]. unfold bind.
  rewrite Hp by left. rewrite IH by (intros; apply Hp; by right).
  unfold ret. rewrite filter_cons. by case_bool_decide; case_decide.
Qed.

Lemma mapM_pure {A B} (f : A → M B) (g : A → B) l s :
  (∀ x, x ∈ l → f x s = Returns (g x) s) →
  mapM f l s = Returns (g <$> l) s.
Proof.
  induction l as [|x l IH]; intros Hf; [done|].
  cbn [mapM]. unfold bind.
  rewrite Hf by left. by rewrite IH by (intros; apply Hf; by right).
Qed.

Lemma scan_attr s name self l :
  Forall (fun article => is_Some (attr s article name)) l →
  filterM (fun article =>
             do a <- getattr (VRef article) name;
             ret (py_eq a (VRef self))) l s =
  Returns (filter (fun article => attr s article name = Some (VRef self)) l) s.
Proof.
  intros Hall. apply filterM_pure. intros x Hx.
  rewrite Forall_forall in Hall. destruct (Hall x Hx) as [v Hv].
  unfold bind, ret, py_eq. rewrite getattr_attr, Hv.
  f_equal. apply bool_decide_ext. naive_solver.
Qed.

Lemma registry_ok_attrs s name :
  registry_ok s → name ∈ ["author"; "magazine"; "title"] →
  Forall (fun article => is_Some (attr s article name)) (all_articles s).
Proof.
  intros (_ & Hok & _) Hname. eapply Forall_impl; [exact Hok|].
  intros l (_ & Ha & Hm & Ht).
  rewrite !elem_of_cons, elem_of_nil in Hname.
  by destruct Hname as [->|[->|[->|[]]]].
Qed.

Lemma Author_articles_eq s self :
  registry_ok s →
  Author_articles self s = Returns (articles_with s "author" self) s.
Proof.
  intros Hok. unfold Author_articles, Article_get_all_articles, bind.
  apply scan_attr, registry_ok_attrs; [done | set_solver].
Qed.

Lemma Magazine_articles_eq s self :
  registry_ok s →
  Magazine_articles self s = Returns (articles_with s "magazine" self) s.
Proof.
  intros Hok. unfold Magazine_articles, Article_get_all_articles, bind.
  apply scan_attr, registry_ok_attrs; [done | set_solver].
Qed.

(** ** Allocation preserves what the registries rely on *)

Lemma attr_extend h o ra rm ra' rm' l name :
  l < length h →
  attr (State (h ++ [o]) ra' rm') l name = attr (State h ra rm) l name.
Proof. intros Hl. unfold attr; simpl. by rewrite lookup_app_l. Qed.

Lemma class_of_allocated s l c : class_of s (VRef l) = Some c → allocated s l.
Proof.
  unfold allocated; simpl. intros Hc.
  destruct (heap s !! l) eqn:E; [|done]. by eapply lookup_lt_Some.
Qed.

Lemma article_ok_allocated s l : article_ok s l → allocated s l.
Proof. intros (Hc & _). by eapply class_of_allocated. Qed.

Lemma article_ok_extend h o ra rm ra' rm' l :
  article_ok (State h ra rm) l → article_ok (State (h ++ [o]) ra' rm') l.
Proof.
  intros Hok. pose proof (article_ok_allocated _ _ Hok) as Hl.
  destruct Hok as (Hc & Ha & Hm & Ht). unfold article_ok.
  rewrite !(attr_extend h o ra rm) by done.
  split; [|done]. by eapply class_of_extend in Hc.
Qed.

Lemma registry_fresh s :
  registry_ok s →
  (length (heap s) ∉ all_articles s) ∧ (length (heap s) ∉ all_magazines s).
Proof.
  intros (_ & Ha & _ & Hm). rewrite Forall_forall in Ha, Hm. split; intros Hin.
  - apply Ha, article_ok_allocated in Hin. unfold allocated in Hin. lia.
  - apply Hm, class_of_allocated in Hin. unfold allocated in Hin. lia.
Qed.

Lemma registry_ok_alloc s o :
  registry_ok s → registry_ok (with_heap (heap s ++ [o]) s).
Proof.
  destruct s as [h ra rm]. intros (Hna & Ha & Hnm & Hm).
  unfold registry_ok, with_heap; simpl in *. repeat split; try done.
  - eapply Forall_impl; [exact Ha|]. intros l. apply article_ok_extend.
  - eapply Forall_impl; [exact Hm|]. intros l. apply (class_of_extend _ _ [] [] (VRef l)).
Qed.

Lemma article_ok_new h ra rm author magazine title :
  article_ok (State (h ++ [Object CArticle (article_dict author magazine title)]) ra rm)
             (length h).
Proof.
  unfold article_ok. rewrite class_of_last, !attr_last. unfold article_dict; simpl.
  repeat split; by simplify_map_eq.
Qed.

Lemma registry_ok_Article_new s author magazine title :
  registry_ok s →
  registry_ok
    (State (heap s ++ [Object CArticle (article_dict author magazine title)])
           (all_articles s ++ [length (heap s)])
           (all_magazines s)).
Proof.
  intros Hok. destruct (registry_fresh s Hok) as [Hfa _].
  destruct s as [h ra rm], Hok as (Hna & Ha & Hnm & Hm).
  unfold registry_ok; simpl in *. repeat split; try done.
  - apply NoDup_app. repeat split; [done | | apply NoDup_singleton].
    intros x Hx ->%list_elem_of_singleton. done.
  - apply Forall_app. split.
    + eapply Forall_impl; [exact Ha|]. intros l. apply article_ok_extend.
    + apply Forall_singleton, article_ok_new.
  - eapply Forall_impl; [exact Hm|]. intros l. apply (class_of_extend _ _ [] [] (VRef l)).
Qed.

Lemma registry_ok_Magazine_new s name category :
  registry_ok s →
  registry_ok
    (State (heap s ++ [Object CMagazine (magazine_dict name category)])
           (all_articles s)
           (all_magazines s ++ [length (heap s)])).
Proof.
  intros Hok. destruct (registry_fresh s Hok) as [_ Hfm].
  destruct s as [h ra rm], Hok as (Hna & Ha & Hnm & Hm).
  unfold registry_ok; simpl in *. repeat split; try done.
  - eapply Forall_impl; [exact Ha|]. intros l. apply article_ok_extend.
  - apply NoDup_app. repeat split; [done | | apply NoDup_singleton].
    intros x Hx ->%list_elem_of_singleton. done.
  - apply Forall_app. split.
    + eapply Forall_impl; [exact Hm|]. intros l. apply (class_of_extend _ _ [] [] (VRef l)).
    + apply Forall_singleton. by rewrite list_lookup_middle.
Qed.

Lemma valid_article_extend h o ra rm ra' rm' author magazine title :
  valid_article (State h ra rm) author magazine title →
  valid_article (State (h ++ [o]) ra' rm') author magazine title.
Proof.
  intros (Ha & Hm & Ht). repeat split; [| |done].
  - by eapply class_of_extend in Ha.
  - by eapply class_of_extend in Hm.
Qed.

Lemma create_all_valid args : ∀ s,
  registry_ok s →
  Forall (fun '(author, magazine, title) => valid_article s author magazine title) args →
  ∃ selfs s', create_all args s = Returns selfs s' ∧
    length selfs = length args ∧
    all_articles s' = all_articles s ++ selfs ∧
    NoDup (all_articles s').
Proof.
  induction args as [|[[a m] t] args IH]; intros s Hok Hargs.
  - exists [], s. rewrite app_nil_r. by destruct Hok.
  - apply Forall_cons in Hargs as [Hv Hargs].
    pose proof (registry_ok_Article_new s a m t Hok) as Hok'.
    destruct (IH _ Hok') as (selfs & s' & Hrun & Hlen & Hreg & Hnd).
    { eapply Forall_impl; [exact Hargs|]. intros [[a' m'] t'].
      destruct s. apply valid_article_extend. }
    exists (length (heap s) :: selfs), s'.
    unfold create_all in *. cbn [mapM]. unfold bind at 1.
    rewrite (Article_new_valid s a m t Hv). unfold bind. rewrite Hrun.
    simpl in Hreg. rewrite <- app_assoc in Hreg. simpl. by rewrite Hlen.
Qed.

(** C1. [Article(author, magazine, title)] raises [ValueError] unless
    [author] is an Author instance, [magazine] a Magazine instance and
    [title] a string of 5 to 50 characters; otherwise it returns a new
    article, carrying the three arguments, that is appended to the
    registry and was not in it before.  A sequence of valid creations
    extends the registry by the created articles in call order, each
    occurring once. *)
Theorem Article_creation s (Hok : registry_ok s) :
  (∀ author magazine title,
     match Article_new author magazine title s with
     | Returns self s' =>
         valid_article s author magazine title ∧
         Article_get_all_articles s' = Returns (all_articles s ++ [self]) s' ∧
         all_articles s' = all_articles s ++ [self] ∧
         (self ∉ all_articles s) ∧
         attr s' self "author" = Some author ∧
         attr s' self "magazine" = Some magazine ∧
         attr s' self "title" = Some title
     | Raises e s' =>
         ¬ valid_article s author magazine title ∧
         (∃ msg, e = ValueError msg) ∧
         all_articles s' = all_articles s
     end) ∧
  (∀ args,
     Forall (fun '(author, magazine, title) => valid_article s author magazine title) args →
     ∃ selfs s', create_all args s = Returns selfs s' ∧
       length selfs = length args ∧
       all_articles s' = all_articles s ++ selfs ∧
       NoDup (all_articles s')).
Proof.
  split; [|intros args; by apply create_all_valid].
  intros author magazine title.
  destruct (decide (valid_article s author magazine title)) as [Hv|Hv].
  - rewrite (Article_new_valid _ _ _ _ Hv).
    destruct (registry_fresh s Hok) as [Hfresh _].
    rewrite !attr_last. unfold article_dict; simpl.
    split; [done|]. repeat split; done.
  - destruct (Article_new_invalid _ _ _ _ Hv) as [msg ->].
    repeat split; eauto.
Qed.

Lemma Article_creation_witness :
  registry_ok module_state ∧
  (∃ s', Article_new (VRef 2) (VRef 1) (VStr "Sleep and Memory") module_state =
         Returns 7 s' ∧
         all_articles s' = [4; 5; 6; 7]) ∧
  (∃ selfs s', create_all two_articles module_state = Returns selfs s' ∧
               length selfs = 2 ∧
               all_articles s' = [4; 5; 6] ++ selfs).
Proof.
  assert (Hok : registry_ok module_state) by compute_done.
  split; [exact Hok|].
  destruct (Article_creation module_state Hok) as [Hone Hseq]. split.
  - specialize (Hone (VRef 2) (VRef 1) (VStr "Sleep and Memory")).
    destruct (Article_new _ _ _ module_state) as [self s'|e s'] eqn:E.
    + exists s'. destruct Hone as (_ & _ & Hreg & _).
      assert (self = 7) as -> by (vm_compute in E; congruence).
      split; [done|]. rewrite Hreg. reflexivity.
    + destruct Hone as (Hv & _). exfalso. apply Hv. compute_done.
  - destruct (Hseq two_articles) as (selfs & s' & Hrun & Hlen & Hreg & _).
    { compute_done. }
    exists selfs, s'. split; [done|]. split; [done|]. rewrite Hreg. reflexivity.
Defined.

(** ** Scans only depend on the registered articles *)

Lemma filter_ext_in {A} (P1 P2 : A → Prop)
    `{!∀ x, Decision (P1 x)} `{!∀ x, Decision (P2 x)} (l : list A) :
  (∀ x, x ∈ l → P1 x ↔ P2 x) → filter P1 l = filter P2 l.
Proof.
  induction l as [|x l IH]; intros Hext; [done|].
  rewrite !filter_cons, IH by (intros; apply Hext; by right).
  destruct (decide (P1 x)) as [H1|H1], (decide (P2 x)) as [H2|H2];
    try done; apply Hext in H1 || apply Hext in H2; done || by left.
Qed.

Lemma articles_with_agree s s' name self :
  all_articles s' = all_articles s →
  (∀ l, l ∈ all_articles s → attr s' l name = attr s l name) →
  articles_with s' name self = articles_with s name self.
Proof.
  intros Hreg Hattr. unfold articles_with. rewrite Hreg.
  apply filter_ext_in. intros l Hl. by rewrite Hattr.
Qed.

Lemma articles_with_alloc s o name self :
  registry_ok s →
  articles_with (with_heap (heap s ++ [o]) s) name self = articles_with s name self.
Proof.
  intros (_ & Hok & _). apply articles_with_agree; [done|].
  intros l Hl. rewrite Forall_forall in Hok.
  apply Hok, article_ok_allocated in Hl.
  destruct s as [h ra rm]. by apply attr_extend.
Qed.

Lemma articles_with_Article_new s author magazine title name self :
  registry_ok s →
  articles_with
    (State (heap s ++ [Object CArticle (article_dict author magazine title)])
           (all_articles s ++ [length (heap s)])
           (all_magazines s)) name self =
  articles_with s name self ++
  (if decide (article_dict author magazine title !! name = Some (VRef self))
   then [length (heap s)] else []).
Proof.
  intros (_ & Hok & _). unfold articles_with; cbn [all_articles].
  rewrite filter_app. f_equal.
  - apply filter_ext_in. intros l Hl. rewrite Forall_forall in Hok.
    apply Hok, article_ok_allocated in Hl.
    destruct s as [h ra rm]. by rewrite (attr_extend h _ ra rm).
  - rewrite filter_cons, filter_nil. destruct s as [h ra rm]; cbn [heap].
    rewrite attr_last. cbn [obj_dict]. by repeat case_decide.
Qed.

(** C5. [author.articles()] returns the registered articles whose [author]
    attribute is that very instance, in registry order; creating (or failing
    to create) an article for any other author leaves the result as it was. *)
Theorem Author_articles_spec s self (Hok : registry_ok s) :
  Author_articles self s = Returns (articles_with s "author" self) s ∧
  articles_with s "author" self `sublist_of` all_articles s ∧
  (∀ article, article ∈ articles_with s "author" self ↔
              article ∈ all_articles s ∧ attr s article "author" = Some (VRef self)) ∧
  (∀ other magazine title,
     other ≠ VRef self →
     ∀ s', s' = final_state (Article_new other magazine title s) →
           Author_articles self s' = Returns (articles_with s "author" self) s').
Proof.
  split; [by apply Author_articles_eq|].
  split; [apply sublist_filter|].
  split.
  { intros article. unfold articles_with. rewrite list_elem_of_filter. tauto. }
  intros other magazine title Hne s' ->.
  destruct (decide (valid_article s other magazine title)) as [Hv|Hv].
  - rewrite (Article_new_valid _ _ _ _ Hv). cbn [final_state].
    rewrite Author_articles_eq by by apply registry_ok_Article_new.
    rewrite articles_with_Article_new by done.
    unfold article_dict. rewrite lookup_insert_ne, lookup_insert_ne by done.
    rewrite lookup_insert_eq.
    rewrite decide_False by congruence. by rewrite app_nil_r.
  - destruct (Article_new_invalid _ _ _ _ Hv) as [msg ->]. cbn [final_state].
    rewrite Author_articles_eq by by apply registry_ok_alloc.
    by rewrite articles_with_alloc.
Qed.

Lemma Author_articles_spec_witness :
  registry_ok module_state ∧
  Author_articles 2 module_state = Returns [4; 6] module_state ∧
  (VRef 3 ≠ VRef 2 ∧
   ∀ s', s' = final_state (Article_new (VRef 3) (VRef 1) (VStr "Sleep and Memory")
                                        module_state) →
         Author_articles 2 s' = Returns [4; 6] s').
Proof.
  assert (Hok : registry_ok module_state) by compute_done.
  split; [exact Hok|].
  destruct (Author_articles_spec module_state 2 Hok) as (Heq & _ & _ & Hother).
  split; [exact Heq|].
  assert (Hne : VRef 3 ≠ VRef 2) by discriminate.
  split; [exact Hne|].
  intros s' Hs'.
  exact (Hother (VRef 3) (VRef 1) (VStr "Sleep and Memory") Hne s' Hs').
Defined.

(** ** Dictionaries and [max] *)

Lemma dict_set_fresh (d : dict) k v :
  k ∉ dict_keys d → dict_set d k v = d ++ [(k, v)].
Proof.
  unfold dict_keys. induction d as [|[k' v'] d IH]; intros Hk; [done|].
  cbn in *. apply not_elem_of_cons in Hk as [Hne Hk].
  rewrite decide_False by done. by rewrite IH.
Qed.

Lemma dict_comprehension (f : loc → nat) ms : ∀ d,
  NoDup (dict_keys d ++ ms) →
  foldl (fun d m => dict_set d m (f m)) d ms = d ++ ((fun m => (m, f m)) <$> ms).
Proof.
  unfold dict_keys.
  induction ms as [|m ms IH]; intros d Hnd; [by rewrite app_nil_r|].
  cbn [foldl fmap list_fmap].
  apply NoDup_app in Hnd as (Hd & Hdisj & Hms).
  apply NoDup_cons in Hms as [Hm Hms].
  rewrite dict_set_fresh by (intros Hin; apply (Hdisj m Hin); by left).
  rewrite IH; [by rewrite <- app_assoc|].
  rewrite fmap_app. cbn. rewrite <- app_assoc. cbn.
  apply NoDup_app. repeat split; [done| |by apply NoDup_cons].
  intros x Hx. apply Hdisj in Hx. done.
Qed.

Lemma dict_get_comprehension (f : loc → nat) ms k :
  k ∈ ms → dict_get ((fun m => (m, f m)) <$> ms) k = Some (f k).
Proof.
  induction ms as [|m ms IH]; intros Hk; [by apply elem_of_nil in Hk|].
  cbn. case_decide as Hd; [by subst|].
  apply elem_of_cons in Hk as [?|Hk]; [done|by apply IH].
Qed.

Lemma py_any_false xs : py_any xs = false ↔ Forall (fun x => x = 0) xs.
Proof.
  unfold py_any. induction xs as [|x xs IH]; cbn; [by split|].
  rewrite orb_false_iff, negb_false_iff, Nat.eqb_eq, IH, Forall_cons. tauto.
Qed.

Lemma max_from_ext {A} (key key' : A → nat) xs : ∀ best,
  (∀ x, x ∈ best :: xs → key x = key' x) →
  max_from key best xs = max_from key' best xs.
Proof.
  induction xs as [|x xs IH]; intros best Hext; [done|].
  cbn [max_from]. rewrite (Hext best) by left. rewrite (Hext x) by (right; left).
  destruct (key' best <? key' x); apply IH; intros y Hy; apply Hext;
    apply elem_of_cons in Hy as [->|Hy];
    solve [by left | by right; left | by do 2 right].
Qed.

Section first_maximum.

Context {A : Type} (key : A → nat).

(** [max_from] returns the first element of largest key. *)
Lemma max_from_first xs : ∀ best pre mid,
  (∀ x, x ∈ pre → key x < key best) →
  (∀ x, x ∈ mid → key x ≤ key best) →
  ∃ pre' post',
    pre ++ best :: mid ++ xs = pre' ++ max_from key best xs :: post' ∧
    (∀ x, x ∈ pre' → key x < key (max_from key best xs)) ∧
    (∀ x, x ∈ post' → key x ≤ key (max_from key best xs)).
Proof.
  induction xs as [|x xs IH]; intros best pre mid Hpre Hmid.
  - exists pre, mid. by rewrite app_nil_r.
  - cbn [max_from]. destruct (key best <? key x) eqn:Hlt.
    + apply Nat.ltb_lt in Hlt.
      destruct (IH x (pre ++ best :: mid) []) as (pre' & post' & Heq & Hlo & Hhi).
      * intros y Hy. apply elem_of_app in Hy as [Hy|Hy].
        { apply Hpre in Hy. lia. }
        apply elem_of_cons in Hy as [->|Hy]; [done|].
        apply Hmid in Hy. lia.
      * intros y Hy. by apply elem_of_nil in Hy.
      * exists pre', post'. split; [|done].
        rewrite <- Heq. by rewrite <- app_assoc.
    + apply Nat.ltb_ge in Hlt.
      destruct (IH best pre (mid ++ [x])) as (pre' & post' & Heq & Hlo & Hhi).
      * done.
      * intros y Hy. apply elem_of_app in Hy as [Hy|Hy]; [by apply Hmid|].
        by apply list_elem_of_singleton in Hy as ->.
      * exists pre', post'. split; [|done].
        rewrite <- Heq. by rewrite <- app_assoc.
Qed.

Lemma py_max_first xs :
  xs ≠ [] →
  ∃ m pre post,
    py_max key xs = Some m ∧ xs = pre ++ m :: post ∧
    (∀ x, x ∈ pre → key x < key m) ∧
    (∀ x, x ∈ post → key x ≤ key m).
Proof.
  destruct xs as [|x xs]; [done|]. intros _.
  destruct (max_from_first xs x [] []) as (pre & post & Heq & Hlo & Hhi);
    try (intros y Hy; by apply elem_of_nil in Hy).
  exists (max_from key x xs), pre, post. by cbn in *.
Qed.

End first_maximum.

(** ** The scan of [top_publisher] *)

Lemma call_articles_magazine s m :
  registry_ok s → class_of s (VRef m) = Some CMagazine →
  call_articles (VRef m) s = Returns (articles_with s "magazine" m) s.
Proof.
  intros Hok Hm. unfold call_articles. rewrite Hm. by apply Magazine_articles_eq.
Qed.

Lemma call_articles_author s a :
  registry_ok s → class_of s (VRef a) = Some CAuthor →
  call_articles (VRef a) s = Returns (articles_with s "author" a) s.
Proof.
  intros Hok Ha. unfold call_articles. rewrite Ha. by apply Author_articles_eq.
Qed.

Lemma count_articles_eq s ms :
  registry_ok s →
  Forall (fun m => class_of s (VRef m) = Some CMagazine) ms →
  ∀ d, count_articles d ms s =
       Returns (foldl (fun d m => dict_set d m (article_count s m)) d ms) s.
Proof.
  intros Hok. induction 1 as [|m ms Hm _ IH]; intros d; [done|].
  cbn [count_articles foldl]. unfold bind.
  rewrite call_articles_magazine by done. apply IH.
Qed.

Lemma magazine_article_counts_eq s :
  registry_ok s → magazine_article_counts s = Returns (counts_of s) s.
Proof.
  intros Hok. unfold magazine_article_counts.
  destruct Hok as (Hna & Ha & Hnm & Hm).
  rewrite count_articles_eq by done. f_equal.
  by rewrite dict_comprehension.
Qed.

Lemma counts_of_keys s : dict_keys (counts_of s) = all_magazines s.
Proof.
  unfold dict_keys, counts_of. rewrite <- list_fmap_compose.
  apply list_fmap_id.
Qed.

Lemma counts_of_values s : dict_values (counts_of s) = article_count s <$> all_magazines s.
Proof. unfold dict_values, counts_of. by rewrite <- list_fmap_compose. Qed.

Lemma counts_of_any s :
  py_any (dict_values (counts_of s)) = false ↔
  ∀ m, m ∈ all_magazines s → article_count s m = 0.
Proof.
  rewrite py_any_false, counts_of_values, Forall_fmap, Forall_forall. done.
Qed.

Lemma py_max_counts s :
  py_max (counts_get (counts_of s)) (dict_keys (counts_of s)) =
  py_max (article_count s) (all_magazines s).
Proof.
  rewrite counts_of_keys. unfold py_max.
  destruct (all_magazines s) as [|m ms] eqn:E; [done|]. f_equal.
  apply max_from_ext. intros x Hx. unfold counts_get, counts_of.
  rewrite E. by rewrite dict_get_comprehension.
Qed.

Lemma Magazine_top_publisher_eq s :
  registry_ok s → Magazine_top_publisher s = Returns (top_of s) s.
Proof.
  intros Hok. unfold Magazine_top_publisher, Article_get_all_articles, bind, top_of.
  destruct (all_articles s) as [|a ra] eqn:Ea; [done|].
  rewrite magazine_article_counts_eq by done.
  rewrite py_max_counts, counts_of_values.
  destruct (py_any _) eqn:Hany; [|done]. cbn [negb].
  destruct (all_magazines s) as [|m ms]; [done|]. done.
Qed.

Lemma top_of_first s :
  all_articles s ≠ [] →
  (∃ m, m ∈ all_magazines s ∧ article_count s m ≠ 0) →
  ∃ m pre post,
    top_of s = Some m ∧ all_magazines s = pre ++ m :: post ∧
    (∀ x, x ∈ pre → article_count s x < article_count s m) ∧
    (∀ x, x ∈ post → article_count s x ≤ article_count s m).
Proof.
  intros Hne (m0 & Hin & Hcount). unfold top_of.
  destruct (all_articles s) as [|a ra]; [done|].
  destruct (py_any _) eqn:Hany.
  - apply py_max_first. intros Hnil. rewrite Hnil in Hin. by apply elem_of_nil in Hin.
  - rewrite <- counts_of_values in Hany. rewrite counts_of_any in Hany.
    by apply Hany in Hin.
Qed.

Lemma top_of_None s :
  all_articles s = [] ∨ (∀ m, m ∈ all_magazines s → article_count s m = 0) →
  top_of s = None.
Proof.
  unfold top_of. intros [->|Hzero]; [done|].
  destruct (all_articles s); [done|].
  apply counts_of_any in Hzero. rewrite counts_of_values in Hzero. by rewrite Hzero.
Qed.

(** C2. [Magazine.top_publisher()] returns [None] when the article registry
    is empty, and when every magazine has no article; otherwise it returns
    the first magazine, in the order of the scan, whose number of articles
    is the largest. *)
Theorem Magazine_top_publisher_spec s (Hok : registry_ok s) :
  ∃ r, Magazine_top_publisher s = Returns r s ∧
    (∀ m, m ∈ all_magazines s →
          ∃ l, Magazine_articles m s = Returns l s ∧ length l = article_count s m) ∧
    (all_articles s = [] → r = None) ∧
    ((∀ m, m ∈ all_magazines s → article_count s m = 0) → r = None) ∧
    (all_articles s ≠ [] →
     (∃ m, m ∈ all_magazines s ∧ article_count s m ≠ 0) →
     ∃ m pre post,
       r = Some m ∧ all_magazines s = pre ++ m :: post ∧
       (∀ x, x ∈ pre → article_count s x < article_count s m) ∧
       (∀ x, x ∈ post → article_count s x ≤ article_count s m)).
Proof.
  exists (top_of s). split; [by apply Magazine_top_publisher_eq|].
  split.
  { intros m _. eexists. split; [by apply Magazine_articles_eq|done]. }
  split; [intros; apply top_of_None; by left|].
  split; [intros; apply top_of_None; by right|].
  apply top_of_first.
Qed.

Lemma Magazine_top_publisher_spec_witness :
  registry_ok module_state ∧
  all_articles module_state ≠ [] ∧
  (∃ m, m ∈ all_magazines module_state ∧ article_count module_state m ≠ 0) ∧
  Magazine_top_publisher module_state = Returns (Some 0) module_state ∧
  all_articles empty_state = [] ∧
  Magazine_top_publisher empty_state = Returns None empty_state.
Proof.
  assert (Hok : registry_ok module_state) by compute_done.
  assert (Hne : all_articles module_state ≠ []) by compute_done.
  assert (Hex : ∃ m, m ∈ all_magazines module_state ∧ article_count module_state m ≠ 0).
  { exists 0. split; compute_done. }
  assert (Hok0 : registry_ok empty_state) by compute_done.
  split; [exact Hok|]. split; [exact Hne|]. split; [exact Hex|].
  split.
  - destruct (Magazine_top_publisher_spec module_state Hok)
      as (r & Hrun & _ & _ & _ & Hmax).
    destruct (Hmax Hne Hex) as (m & pre & post & -> & Hreg & Hlo & Hhi).
    rewrite Hrun. do 2 f_equal. vm_compute in Hreg.
    destruct pre as [|x pre]; [by injection Hreg|].
    injection Hreg as <- Hreg. specialize (Hlo 0 ltac:(left)).
    destruct pre as [|y pre]; injection Hreg as <- Hreg.
    + vm_compute in Hlo. lia.
    + by destruct pre.
  - split; [done|].
    destruct (Magazine_top_publisher_spec empty_state Hok0) as (r & Hrun & _ & Hnil & _).
    rewrite Hrun. by rewrite Hnil.
Defined.

(** ** Attribute assignment *)

Lemma setattr_eq s l name v :
  setattr l name v s =
  if decide (allocated s l) then Returns tt (update_attr s l name v)
  else Raises AttributeError s.
Proof.
  unfold setattr, update_attr, allocated. case_decide as Hl.
  - apply lookup_lt_is_Some in Hl as [o Ho]. by rewrite Ho.
  - rewrite lookup_ge_None_2; [done|lia].
Qed.

Lemma update_attr_registries s l name v :
  all_articles (update_attr s l name v) = all_articles s ∧
  all_magazines (update_attr s l name v) = all_magazines s.
Proof. unfold update_attr. by destruct (heap s !! l). Qed.

Lemma update_attr_class_of s l name v x :
  class_of (update_attr s l name v) x = class_of s x.
Proof.
  unfold update_attr. destruct (heap s !! l) as [o|] eqn:Ho; [|done].
  destruct x as [| | |l']; try done. cbn.
  destruct (decide (l = l')) as [<-|Hne].
  - rewrite list_lookup_insert_eq by by eapply lookup_lt_Some. by rewrite Ho.
  - by rewrite list_lookup_insert_ne.
Qed.

Lemma update_attr_attr s l name v l' name' :
  allocated s l →
  attr (update_attr s l name v) l' name' =
  if decide (l' = l ∧ name' = name) then Some v else attr s l' name'.
Proof.
  unfold allocated, update_attr, attr. intros Hl.
  apply lookup_lt_is_Some in Hl as [o Ho]. rewrite Ho. cbn.
  destruct (decide (l = l')) as [<-|Hne].
  - rewrite list_lookup_insert_eq by by eapply lookup_lt_Some. rewrite Ho. cbn.
    destruct (decide (name = name')) as [<-|Hnn].
    + rewrite lookup_insert_eq. by rewrite decide_True.
    + rewrite lookup_insert_ne by done. rewrite decide_False; [done|intros [? ?]; congruence].
  - rewrite list_lookup_insert_ne by done. rewrite decide_False; [done|intros [? ?]; congruence].
Qed.

Lemma update_attr_is_Some s l name v l' name' :
  is_Some (attr s l' name') → is_Some (attr (update_attr s l name v) l' name').
Proof.
  intros Hs. destruct (decide (allocated s l)) as [Hl|Hl].
  - rewrite update_attr_attr by done. by case_decide.
  - unfold update_attr, allocated in *. rewrite lookup_ge_None_2; [done|lia].
Qed.

Lemma registry_ok_update_attr s l name v :
  registry_ok s → registry_ok (update_attr s l name v).
Proof.
  intros (Hna & Ha & Hnm & Hm). unfold registry_ok.
  destruct (update_attr_registries s l name v) as [-> ->].
  repeat split; try done.
  - eapply Forall_impl; [exact Ha|]. intros a (Hc & H1 & H2 & H3).
    unfold article_ok. rewrite update_attr_class_of.
    repeat split; [done|by apply update_attr_is_Some..].
  - eapply Forall_impl; [exact Hm|]. intros m Hc.
    by rewrite update_attr_class_of.
Qed.

Lemma Magazine_name_setter_eq s self v :
  Magazine_name_setter self v s =
  if decide (valid_name v) then setattr self "_name" v s
  else Raises (ValueError "Name must be a string between 2 and 16 characters.") s.
Proof.
  unfold Magazine_name_setter.
  destruct (negb (is_str v) || _) eqn:Hv.
  - rewrite decide_False; [done|]. rewrite <- is_str_valid_name. congruence.
  - by rewrite decide_True by by apply is_str_valid_name.
Qed.

Lemma Magazine_category_setter_eq s self v :
  Magazine_category_setter self v s =
  if decide (valid_category v) then setattr self "_category" v s
  else Raises (ValueError "Category must be a non-empty string.") s.
Proof.
  unfold Magazine_category_setter.
  destruct (negb (is_str v) || _) eqn:Hv.
  - rewrite decide_False; [done|]. rewrite <- is_str_valid_category. congruence.
  - by rewrite decide_True by by apply is_str_valid_category.
Qed.

(** ** Validation of Magazine fields *)

Lemma assign_Magazine_name s self v :
  class_of s (VRef self) = Some CMagazine →
  assign self "name" v s = Magazine_name_setter self v s.
Proof. intros Hc. unfold assign. by rewrite Hc. Qed.

Lemma assign_Magazine_category s self v :
  class_of s (VRef self) = Some CMagazine →
  assign self "category" v s = Magazine_category_setter self v s.
Proof. intros Hc. unfold assign. by rewrite Hc. Qed.

Lemma assign_plain s self name v :
  class_of s (VRef self) ≠ Some CMagazine →
  assign self name v s = setattr self name v s.
Proof.
  intros Hc. unfold assign.
  by destruct (class_of s (VRef self)) as [[]|].
Qed.

(** C6. The name and the category of a Magazine are validated by the
    constructor and by every later assignment: a name that is not a string
    of 2 to 16 characters, or a category that is not a non-empty string,
    raises [ValueError] in both places, and a valid value is stored. *)
Theorem Magazine_fields_validated s self
    (Hm : class_of s (VRef self) = Some CMagazine) :
  (∀ name category,
     ¬ valid_name name ∨ ¬ valid_category category →
     ∃ msg s', Magazine_new name category s = Raises (ValueError msg) s') ∧
  (∀ v, ¬ valid_name v →
        ∃ msg, assign self "name" v s = Raises (ValueError msg) s) ∧
  (∀ v, ¬ valid_category v →
        ∃ msg, assign self "category" v s = Raises (ValueError msg) s) ∧
  (∀ v, valid_name v →
        ∃ s', assign self "name" v s = Returns tt s' ∧
              attr s' self "_name" = Some v) ∧
  (∀ v, valid_category v →
        ∃ s', assign self "category" v s = Returns tt s' ∧
              attr s' self "_category" = Some v).
Proof.
  pose proof (class_of_allocated _ _ _ Hm) as Hl.
  repeat split.
  - intros name category Hv.
    destruct (Magazine_new_invalid s name category) as (msg & o & _ & ->); [tauto|].
    by eexists _, _.
  - intros v Hv. rewrite assign_Magazine_name, Magazine_name_setter_eq by done.
    rewrite decide_False by done. by eexists.
  - intros v Hv. rewrite assign_Magazine_category, Magazine_category_setter_eq by done.
    rewrite decide_False by done. by eexists.
  - intros v Hv. rewrite assign_Magazine_name, Magazine_name_setter_eq by done.
    rewrite decide_True, setattr_eq, decide_True by done.
    eexists. split; [done|]. rewrite update_attr_attr by done. by rewrite decide_True.
  - intros v Hv. rewrite assign_Magazine_category, Magazine_category_setter_eq by done.
    rewrite decide_True, setattr_eq, decide_True by done.
    eexists. split; [done|]. rewrite update_attr_attr by done. by rewrite decide_True.
Qed.

Lemma Magazine_fields_validated_witness :
  class_of module_state (VRef 0) = Some CMagazine ∧
  (¬ valid_name (VStr "A") ∧
   (∃ msg s', Magazine_new (VStr "A") (VStr "Physics") module_state =
              Raises (ValueError msg) s') ∧
   (∃ msg, assign 0 "name" (VStr "A") module_state =
           Raises (ValueError msg) module_state)) ∧
  (¬ valid_name (VStr "ABCDEFGHIJKLMNOPQ") ∧
   (∃ msg s', Magazine_new (VStr "ABCDEFGHIJKLMNOPQ") (VStr "Physics") module_state =
              Raises (ValueError msg) s') ∧
   (∃ msg, assign 0 "name" (VStr "ABCDEFGHIJKLMNOPQ") module_state =
           Raises (ValueError msg) module_state)) ∧
  (¬ valid_category (VStr "") ∧
   (∃ msg s', Magazine_new (VStr "Nature") (VStr "") module_state =
              Raises (ValueError msg) s') ∧
   (∃ msg, assign 0 "category" (VStr "") module_state =
           Raises (ValueError msg) module_state)) ∧
  (valid_name (VStr "Wired") ∧
   ∃ s', assign 0 "name" (VStr "Wired") module_state = Returns tt s' ∧
         attr s' 0 "_name" = Some (VStr "Wired")).
Proof.
  assert (Hm : class_of module_state (VRef 0) = Some CMagazine) by reflexivity.
  destruct (Magazine_fields_validated module_state 0 Hm)
    as (Hnew & Hname & Hcat & Hname_ok & _).
  assert (H1 : ¬ valid_name (VStr "A")) by (simpl; lia).
  assert (H17 : ¬ valid_name (VStr "ABCDEFGHIJKLMNOPQ")) by (simpl; lia).
  assert (H0 : ¬ valid_category (VStr "")) by (simpl; lia).
  assert (H5 : valid_name (VStr "Wired")) by (simpl; lia).
  split; [exact Hm|].
  split; [split; [exact H1 | split; [apply Hnew; by left | by apply Hname]]|].
  split; [split; [exact H17 | split; [apply Hnew; by left | by apply Hname]]|].
  split; [split; [exact H0 | split; [apply Hnew; by right | by apply Hcat]]|].
  split; [exact H5 | by apply Hname_ok].
Defined.

(** ** Failures leave the state as it was *)

Lemma unaltered_alloc s o : unaltered s (with_heap (heap s ++ [o]) s).
Proof.
  repeat split. intros l Hl. cbn. by rewrite lookup_app_l.
Qed.

Lemma setattr_Raises s l name v e s' :
  setattr l name v s = Raises e s' → s' = s.
Proof. rewrite setattr_eq. case_decide; congruence. Qed.

Lemma assign_Raises s self name v e s' :
  assign self name v s = Raises e s' → s' = s.
Proof.
  unfold assign.
  destruct (class_of s (VRef self)) as [[]|]; try apply setattr_Raises.
  repeat case_decide; try apply setattr_Raises.
  - rewrite Magazine_name_setter_eq. case_decide; [apply setattr_Raises|congruence].
  - rewrite Magazine_category_setter_eq. case_decide; [apply setattr_Raises|congruence].
Qed.

(** C7. A failed construction of an Article or of a Magazine leaves both
    registries and every existing object as they were (the instance under
    construction is referenced from nowhere), and a failed assignment to
    the name or the category of a Magazine leaves the whole state, hence the
    previous value of the field, unchanged. *)
Theorem failed_validation_is_atomic s :
  (∀ author magazine title e s',
     Article_new author magazine title s = Raises e s' → unaltered s s') ∧
  (∀ name category e s',
     Magazine_new name category s = Raises e s' → unaltered s s') ∧
  (∀ self v e s',
     assign self "name" v s = Raises e s' →
     s' = s ∧ attr s' self "_name" = attr s self "_name") ∧
  (∀ self v e s',
     assign self "category" v s = Raises e s' →
     s' = s ∧ attr s' self "_category" = attr s self "_category").
Proof.
  split; [|split; [|split]].
  - intros author magazine title e s' Hrun.
    destruct (decide (valid_article s author magazine title)) as [Hv|Hv];
      [by rewrite Article_new_valid in Hrun|].
    destruct (Article_new_invalid s _ _ _ Hv) as [msg Heq].
    rewrite Heq in Hrun. injection Hrun as _ <-. apply unaltered_alloc.
  - intros name category e s' Hrun.
    destruct (decide (valid_name name ∧ valid_category category)) as [[Hn Hc]|Hv];
      [by rewrite Magazine_new_valid in Hrun|].
    destruct (Magazine_new_invalid s _ _ Hv) as (msg & o & _ & Heq).
    rewrite Heq in Hrun. injection Hrun as _ <-. apply unaltered_alloc.
  - intros self v e s' Hrun. by apply assign_Raises in Hrun as ->.
  - intros self v e s' Hrun. by apply assign_Raises in Hrun as ->.
Qed.

Lemma failed_validation_is_atomic_witness :
  unaltered module_state
    (final_state (Article_new (VRef 2) (VRef 0) (VStr "Test") module_state)) ∧
  unaltered module_state
    (final_state (Magazine_new (VStr "Nature") (VStr "") module_state)) ∧
  final_state (assign 0 "name" (VStr "A") module_state) = module_state ∧
  final_state (assign 0 "category" (VInt 7) module_state) = module_state.
Proof.
  destruct (failed_validation_is_atomic module_state) as (Hart & Hmag & Hname & Hcat).
  split; [|split; [|split]].
  - destruct (Article_new _ _ _ _) as [a s'|e s'] eqn:E;
      [vm_compute in E; discriminate|]. by apply Hart in E.
  - destruct (Magazine_new _ _ _) as [a s'|e s'] eqn:E;
      [vm_compute in E; discriminate|]. by apply Hmag in E.
  - destruct (assign 0 "name" _ _) as [a s'|e s'] eqn:E;
      [vm_compute in E; discriminate|]. by apply Hname in E as [-> _].
  - destruct (assign 0 "category" _ _) as [a s'|e s'] eqn:E;
      [vm_compute in E; discriminate|]. by apply Hcat in E as [-> _].
Defined.

(** ** [Author.add_article] *)

Lemma Author_add_article_eq s self magazine title :
  Author_add_article self magazine title s =
  if decide (class_of s magazine = Some CMagazine)
  then if is_str title
       then Article_new (VRef self) magazine title s
       else Raises (ValueError "Title must be a string.") s
  else Raises (ValueError "Magazine must be an instance of the Magazine class.") s.
Proof.
  unfold Author_add_article, isinstance, bind.
  case_bool_decide as Hm.
  - rewrite decide_True by done. cbn [negb]. by destruct (is_str title).
  - by rewrite decide_False.
Qed.

(** C3, as stated, fails: a string shorter than 5 characters is
    a string title, and [add_article] raises on it. *)
Lemma Author_add_article_short_title :
  class_of module_state (VRef 2) = Some CAuthor ∧
  class_of module_state (VRef 0) = Some CMagazine ∧
  is_str (VStr "Test") = true ∧
  ∃ s', Author_add_article 2 (VRef 0) (VStr "Test") module_state =
        Raises (ValueError "Title must be a string between 5 and 50 characters.") s'.
Proof.
  repeat split. eexists. vm_compute. reflexivity.
Qed.

(** C3, amended. [author.add_article(magazine, title)] raises [ValueError]
    if [magazine] is not a Magazine instance, if [title] is not a string,
    and also if [title] is a string of fewer than 5 or more than 50
    characters; for a Magazine instance and a string of 5 to 50 characters
    it returns a new registered Article whose author is [self]. *)
Theorem Author_add_article_spec s self magazine title
    (Hok : registry_ok s) (Ha : class_of s (VRef self) = Some CAuthor) :
  match Author_add_article self magazine title s with
  | Returns article s' =>
      class_of s magazine = Some CMagazine ∧
      valid_title title ∧
      all_articles s' = all_articles s ++ [article] ∧
      (article ∉ all_articles s) ∧
      attr s' article "author" = Some (VRef self) ∧
      attr s' article "magazine" = Some magazine ∧
      attr s' article "title" = Some title
  | Raises e s' =>
      (class_of s magazine ≠ Some CMagazine ∨ is_str title = false ∨ ¬ valid_title title) ∧
      (∃ msg, e = ValueError msg) ∧
      all_articles s' = all_articles s
  end.
Proof.
  rewrite Author_add_article_eq.
  case_decide as Hm; [|split; [by left|by eauto]].
  destruct (is_str title) eqn:Hstr; [|split; [by right; left|by eauto]].
  destruct (decide (valid_title title)) as [Ht|Ht].
  - rewrite Article_new_valid by done.
    destruct (registry_fresh s Hok) as [Hfresh _].
    rewrite !attr_last. unfold article_dict; cbn [obj_dict].
    do 4 (split; [done|]). by repeat split.
  - destruct (Article_new_invalid s (VRef self) magazine title) as [msg ->].
    { by intros (_ & _ & ?). }
    split; [by do 2 right|by eauto].
Qed.

Lemma Author_add_article_spec_witness :
  registry_ok module_state ∧
  class_of module_state (VRef 2) = Some CAuthor ∧
  ∃ s', Author_add_article 2 (VRef 0) (VStr "Tests") module_state = Returns 7 s' ∧
        all_articles s' = [4; 5; 6; 7] ∧
        attr s' 7 "author" = Some (VRef 2).
Proof.
  assert (Hok : registry_ok module_state) by compute_done.
  assert (Ha : class_of module_state (VRef 2) = Some CAuthor) by reflexivity.
  split; [exact Hok|]. split; [exact Ha|].
  pose proof (Author_add_article_spec module_state 2 (VRef 0) (VStr "Tests") Hok Ha)
    as Hspec.
  destruct (Author_add_article 2 _ _ module_state) as [article s'|e s'] eqn:E.
  - assert (article = 7) as -> by (vm_compute in E; congruence).
    exists s'. destruct Hspec as (_ & _ & Hreg & _ & Hauthor & _).
    split; [done|]. split; [by rewrite Hreg|done].
  - vm_compute in E. discriminate.
Defined.

(** ** Queries do not change the state *)

Lemma read_only_ret {A} (a : A) : read_only (ret a).
Proof. done. Qed.

Lemma read_only_raise {A} e : read_only (@raise A e).
Proof. done. Qed.

Lemma read_only_bind {A B} (c : M A) (k : A → M B) :
  read_only c → (∀ a, read_only (k a)) → read_only (bind c k).
Proof.
  intros Hc Hk s. unfold bind. specialize (Hc s).
  destruct (c s) as [a s'|e s']; cbn in Hc; subst; [apply Hk|done].
Qed.

Lemma read_only_getattr v name : read_only (getattr v name).
Proof.
  intros s. unfold getattr. destruct v as [| | |l]; try done.
  destruct (heap s !! l) as [o|]; [|done]. by destruct (obj_dict o !! name).
Qed.

Lemma read_only_get_all_articles : read_only Article_get_all_articles.
Proof. done. Qed.

Lemma read_only_filterM {A} (p : A → M bool) l :
  (∀ x, read_only (p x)) → read_only (filterM p l).
Proof.
  intros Hp. induction l as [|x l IH]; [done|]. cbn [filterM].
  apply read_only_bind; [done|]. intros b.
  apply read_only_bind; [done|]. intros r. apply read_only_ret.
Qed.

Lemma read_only_mapM {A B} (f : A → M B) l :
  (∀ x, read_only (f x)) → read_only (mapM f l).
Proof.
  intros Hf. induction l as [|x l IH]; [done|]. cbn [mapM].
  apply read_only_bind; [done|]. intros b.
  apply read_only_bind; [done|]. intros r. apply read_only_ret.
Qed.

Create HintDb readonly discriminated.

#[local] Hint Resolve read_only_ret read_only_raise read_only_getattr
  read_only_get_all_articles : readonly.

(** Decomposes a computation along its binds and comprehensions, and
    closes the leaves with the lemmas collected so far. *)
Ltac read_only :=
  repeat first
    [ solve [auto with readonly]
    | apply read_only_bind; [|intros ?]
    | apply read_only_filterM; intros ?
    | apply read_only_mapM; intros ? ].

Lemma read_only_Author_articles self : read_only (Author_articles self).
Proof. unfold Author_articles. read_only. Qed.

Lemma read_only_Magazine_articles self : read_only (Magazine_articles self).
Proof. unfold Magazine_articles. read_only. Qed.

#[local] Hint Resolve read_only_Author_articles read_only_Magazine_articles : readonly.

Lemma read_only_call_articles v : read_only (call_articles v).
Proof.
  intros s. unfold call_articles. destruct v as [| | |l]; try done.
  destruct (class_of s (VRef l)) as [[]|]; try done.
  - apply read_only_Author_articles.
  - apply read_only_Magazine_articles.
Qed.

Lemma read_only_get_category v : read_only (get_category v).
Proof.
  intros s. unfold get_category.
  destruct v as [| | |l]; try apply read_only_getattr.
  destruct (class_of s (VRef l)) as [[]|]; apply read_only_getattr.
Qed.

#[local] Hint Resolve read_only_call_articles read_only_get_category : readonly.

Lemma read_only_Author_magazines self : read_only (Author_magazines self).
Proof. unfold Author_magazines. read_only. Qed.

#[local] Hint Resolve read_only_Author_magazines : readonly.

Lemma read_only_Author_topic_areas self : read_only (Author_topic_areas self).
Proof.
  apply read_only_bind; [read_only|]. intros [|m ms]; read_only.
Qed.

Lemma read_only_Magazine_contributors self : read_only (Magazine_contributors self).
Proof. unfold Magazine_contributors. read_only. Qed.

#[local] Hint Resolve read_only_Magazine_contributors : readonly.

Lemma read_only_Magazine_article_titles self : read_only (Magazine_article_titles self).
Proof. unfold Magazine_article_titles. read_only. Qed.

Lemma read_only_Magazine_contributing_authors self :
  read_only (Magazine_contributing_authors self).
Proof.
  apply read_only_bind; [read_only|]. intros [|a l]; read_only.
Qed.

Lemma read_only_count_articles ms : ∀ d, read_only (count_articles d ms).
Proof.
  induction ms as [|m ms IH]; intros d; [done|]. cbn [count_articles].
  apply read_only_bind; [read_only|]. intros l. apply IH.
Qed.

Lemma read_only_Magazine_top_publisher : read_only Magazine_top_publisher.
Proof.
  apply read_only_bind; [read_only|]. intros [|a l]; [done|].
  apply read_only_bind.
  { intros s. apply read_only_count_articles. }
  intros counts. destruct (negb _); [done|]. by destruct (py_max _ _).
Qed.

(** ** The calls a client can make, and what they do to the state *)

Lemma step_setattr s l name v : step s (final_state (setattr l name v s)).
Proof. rewrite setattr_eq. case_decide; constructor. Qed.

Lemma step_assign s self name v : step s (final_state (assign self name v s)).
Proof.
  unfold assign.
  destruct (class_of s (VRef self)) as [[]|]; try apply step_setattr.
  repeat case_decide; try apply step_setattr.
  - rewrite Magazine_name_setter_eq. case_decide; [apply step_setattr|constructor].
  - rewrite Magazine_category_setter_eq. case_decide; [apply step_setattr|constructor].
Qed.

Lemma step_Article_new s author magazine title :
  step s (final_state (Article_new author magazine title s)).
Proof.
  destruct (decide (valid_article s author magazine title)) as [Hv|Hv].
  - rewrite Article_new_valid by done. constructor.
  - destruct (Article_new_invalid s _ _ _ Hv) as [msg ->]. constructor.
Qed.

Lemma step_run c s : step s (run c s).
Proof.
  destruct c; cbn [run].
  - destruct (decide (valid_category name)) as [Hv|Hv].
    + rewrite Author_new_valid by done. constructor.
    + destruct (Author_new_invalid s _ Hv) as [msg ->]. constructor.
  - destruct (decide (valid_name name ∧ valid_category category)) as [[Hn Hc]|Hv].
    + rewrite Magazine_new_valid by done. constructor.
    + destruct (Magazine_new_invalid s _ _ Hv) as (msg & o & _ & ->). constructor.
  - apply step_Article_new.
  - apply step_assign.
  - constructor.
  - rewrite read_only_Author_articles. constructor.
  - rewrite read_only_Author_magazines. constructor.
  - rewrite Author_add_article_eq.
    case_decide; [|constructor].
    destruct (is_str title); [apply step_Article_new|constructor].
  - rewrite read_only_Author_topic_areas. constructor.
  - unfold Magazine_name. rewrite read_only_getattr. constructor.
  - unfold Magazine_category. rewrite read_only_getattr. constructor.
  - rewrite read_only_Magazine_articles. constructor.
  - rewrite read_only_Magazine_contributors. constructor.
  - rewrite read_only_Magazine_article_titles. constructor.
  - rewrite read_only_Magazine_contributing_authors. constructor.
  - rewrite read_only_Magazine_top_publisher. constructor.
Qed.

Lemma step_registry_ok s s' : step s s' → registry_ok s → registry_ok s'.
Proof.
  destruct 1; intros Hok; try done.
  - by apply registry_ok_alloc.
  - by apply registry_ok_Article_new.
  - by apply registry_ok_Magazine_new.
  - by apply registry_ok_update_attr.
Qed.

Lemma step_registries s s' :
  step s s' →
  all_articles s `prefix_of` all_articles s' ∧
  all_magazines s `prefix_of` all_magazines s'.
Proof.
  destruct 1; cbn; try done.
  - split; [by apply prefix_app_r|done].
  - split; [done|by apply prefix_app_r].
  - by destruct (update_attr_registries s l name v) as [-> ->].
Qed.

(** Every state built by calls from the empty state, or from the state
    left by importing the module, satisfies [registry_ok]. *)
Lemma registry_ok_run c s : registry_ok s → registry_ok (run c s).
Proof. apply step_registry_ok, step_run. Qed.

Lemma registry_ok_runs cs s : registry_ok s → registry_ok (foldl (flip run) s cs).
Proof.
  revert s. induction cs as [|c cs IH]; intros s Hok; [done|].
  cbn. by apply IH, registry_ok_run.
Qed.

Example empty_state_ok : registry_ok empty_state.
Proof. compute_done. Qed.

Corollary registry_ok_reachable cs :
  registry_ok (foldl (flip run) empty_state cs) ∧
  registry_ok (foldl (flip run) module_state cs).
Proof.
  split; apply registry_ok_runs; [apply empty_state_ok|apply module_state_ok].
Qed.

(** ** The registry of magazines *)

Lemma runs_all_magazines cs : ∀ s,
  all_magazines s `prefix_of` all_magazines (foldl (flip run) s cs).
Proof.
  induction cs as [|c cs IH]; intros s; [done|]. cbn.
  etrans; [|apply IH]. apply step_registries, step_run.
Qed.

Lemma top_of_Some s m :
  top_of s = Some m →
  ∃ pre post,
    all_magazines s = pre ++ m :: post ∧
    (∀ x, x ∈ pre → article_count s x < article_count s m) ∧
    (∀ x, x ∈ post → article_count s x ≤ article_count s m).
Proof.
  unfold top_of. destruct (all_articles s); [done|].
  destruct (py_any _); [|done]. intros Hmax.
  destruct (py_max_first (article_count s) (all_magazines s))
    as (m0 & pre & post & Hm0 & Hrest).
  { intros Hnil. by rewrite Hnil in Hmax. }
  rewrite Hmax in Hm0. injection Hm0 as <-. by exists pre, post.
Qed.

(** C10. A successful [Magazine(name, category)] appends the new instance
    to [Magazine.all_magazines], and no sequence of calls removes or
    reorders what the list holds.  [top_publisher] counts the articles of
    every magazine of the list, in list order, also of a magazine that has
    none (its count is zero); among magazines with the largest count it
    returns the one that comes first in the list. *)
Theorem Magazine_registry_spec s (Hok : registry_ok s) :
  (∀ name category,
     match Magazine_new name category s with
     | Returns m s' =>
         all_magazines s' = all_magazines s ++ [m] ∧ (m ∉ all_magazines s)
     | Raises _ s' => all_magazines s' = all_magazines s
     end) ∧
  (∀ cs, all_magazines s `prefix_of` all_magazines (foldl (flip run) s cs)) ∧
  (∃ counts,
     magazine_article_counts s = Returns counts s ∧
     dict_keys counts = all_magazines s ∧
     (∀ m, m ∈ all_magazines s → dict_get counts m = Some (article_count s m)) ∧
     (∀ m, m ∈ all_magazines s → article_count s m = 0 → (m, 0) ∈ counts)) ∧
  (∀ m i j m',
     Magazine_top_publisher s = Returns (Some m) s →
     all_magazines s !! i = Some m →
     all_magazines s !! j = Some m' →
     article_count s m ≤ article_count s m' →
     i ≤ j ∧ article_count s m' = article_count s m).
Proof.
  split; [|split; [|split]].
  - intros name category.
    destruct (decide (valid_name name ∧ valid_category category)) as [[Hn Hc]|Hv].
    + rewrite Magazine_new_valid by done. cbn. split; [done|].
      by destruct (registry_fresh s Hok).
    + by destruct (Magazine_new_invalid s _ _ Hv) as (msg & o & _ & ->).
  - intros cs. apply runs_all_magazines.
  - exists (counts_of s). split; [by apply magazine_article_counts_eq|].
    split; [apply counts_of_keys|]. split.
    + intros m Hm. by apply dict_get_comprehension.
    + intros m Hm Hzero. unfold counts_of. apply list_elem_of_fmap.
      exists m. by rewrite Hzero.
  - intros m i j m' Hrun Hi Hj Hle.
    rewrite Magazine_top_publisher_eq in Hrun by done.
    injection Hrun as Htop. apply top_of_Some in Htop as (pre & post & Hreg & Hlo & Hhi).
    destruct Hok as (_ & _ & Hnd & _).
    assert (i = length pre) as ->.
    { eapply NoDup_lookup; [done..|]. rewrite Hreg. by apply list_lookup_middle. }
    destruct (decide (length pre ≤ j)) as [Hij|Hij].
    + split; [done|]. apply Nat.le_antisymm; [|done].
      rewrite Hreg in Hj. rewrite lookup_app_r in Hj by done.
      destruct (j - length pre) as [|k]; [by injection Hj as <-|].
      cbn in Hj. apply Hhi. by eapply list_elem_of_lookup_2.
    + rewrite Hreg in Hj. rewrite lookup_app_l in Hj by lia.
      apply list_elem_of_lookup_2, Hlo in Hj. lia.
Qed.

Lemma Magazine_registry_spec_witness :
  registry_ok module_state ∧
  (∃ m s', Magazine_new (VStr "Nature") (VStr "Science") module_state = Returns m s' ∧
           all_magazines s' = [0; 1; m]) ∧
  Magazine_top_publisher module_state = Returns (Some 0) module_state ∧
  all_magazines module_state !! 0 = Some 0 ∧
  all_magazines module_state !! 1 = Some 1 ∧
  (article_count module_state 0 ≤ article_count module_state 1 → 0 ≤ 1).
Proof.
  assert (Hok : registry_ok module_state) by compute_done.
  destruct (Magazine_registry_spec module_state Hok) as (Hnew & _ & _ & Htie).
  assert (Htop : Magazine_top_publisher module_state = Returns (Some 0) module_state).
  { rewrite Magazine_top_publisher_eq by done.
    assert (top_of module_state = Some 0) as -> by compute_done. done. }
  assert (H0 : all_magazines module_state !! 0 = Some 0) by compute_done.
  assert (H1 : all_magazines module_state !! 1 = Some 1) by compute_done.
  split; [exact Hok|]. split.
  - specialize (Hnew (VStr "Nature") (VStr "Science")).
    rewrite Magazine_new_valid in Hnew |- * by (simpl; lia).
    destruct Hnew as [Hreg _]. eexists _, _. split; [done|].
    rewrite Hreg.
    by assert (all_magazines module_state = [0; 1]) as -> by compute_done.
  - split; [exact Htop|]. split; [exact H0|]. split; [exact H1|].
    intros Hle. exact (proj1 (Htie 0 0 1 1 Htop H0 H1 Hle)).
Defined.

(** ** Sets of values and the collectors built from them *)

Lemma elem_of_list_of_set v l : v ∈ list_of_set l ↔ v ∈ l.
Proof. unfold list_of_set. by rewrite elem_of_elements, elem_of_list_to_set. Qed.

Lemma NoDup_list_of_set l : NoDup (list_of_set l).
Proof. unfold list_of_set. apply NoDup_elements. Qed.

Lemma list_of_set_nil l : list_of_set l = [] ↔ l = [].
Proof.
  split.
  - intros Hnil. destruct l as [|v l]; [done|].
    assert (v ∈ list_of_set (v :: l)) as Hin by (apply elem_of_list_of_set; left).
    rewrite Hnil in Hin. by apply elem_of_nil in Hin.
  - by intros ->.
Qed.

Lemma collect_attr s name l :
  Forall (fun article => is_Some (attr s article name)) l →
  mapM (fun article => getattr (VRef article) name) l s =
  Returns (attr_of s name <$> l) s.
Proof.
  intros Hall. apply mapM_pure. intros x Hx.
  rewrite Forall_forall in Hall. destruct (Hall x Hx) as [v Hv].
  unfold attr_of. by rewrite getattr_attr, Hv.
Qed.

Lemma elem_of_collect s name l v :
  Forall (fun article => is_Some (attr s article name)) l →
  v ∈ attr_of s name <$> l ↔ ∃ x, x ∈ l ∧ attr s x name = Some v.
Proof.
  intros Hall. rewrite Forall_forall in Hall. rewrite list_elem_of_fmap.
  unfold attr_of. split.
  - intros (x & -> & Hx). exists x. split; [done|].
    by destruct (Hall x Hx) as [w ->].
  - intros (x & Hx & Hv). exists x. by rewrite Hv.
Qed.

Lemma articles_with_attrs s name self name' :
  registry_ok s → name' ∈ ["author"; "magazine"; "title"] →
  Forall (fun article => is_Some (attr s article name')) (articles_with s name self).
Proof.
  intros Hok Hname. pose proof (registry_ok_attrs s name' Hok Hname) as Hall.
  rewrite Forall_forall in Hall |- *. intros x Hx. apply Hall.
  unfold articles_with in Hx. by apply list_elem_of_filter in Hx as [_ ?].
Qed.

Lemma Magazine_contributors_eq s self :
  registry_ok s →
  Magazine_contributors self s =
  Returns (list_of_set (attr_of s "author" <$> articles_with s "magazine" self)) s.
Proof.
  intros Hok. unfold Magazine_contributors, bind.
  rewrite Magazine_articles_eq by done.
  rewrite collect_attr; [done|]. apply articles_with_attrs; [done|set_solver].
Qed.

Lemma Author_magazines_eq s self :
  registry_ok s →
  Author_magazines self s =
  Returns (list_of_set (attr_of s "magazine" <$> articles_with s "author" self)) s.
Proof.
  intros Hok. unfold Author_magazines, bind.
  rewrite Author_articles_eq by done.
  rewrite collect_attr; [done|]. apply articles_with_attrs; [done|set_solver].
Qed.

(** ** Changing what one element of a list satisfies *)

Lemma length_filter_change {A} (P Q : A → Prop)
    `{!∀ x, Decision (P x)} `{!∀ x, Decision (Q x)} (l : list A) (x : A) :
  NoDup l → x ∈ l →
  (∀ y, y ∈ l → y ≠ x → P y ↔ Q y) →
  length (filter Q l) + (if decide (P x) then 1 else 0) =
  length (filter P l) + (if decide (Q x) then 1 else 0).
Proof.
  intros Hnd Hx Hext.
  apply list_elem_of_split in Hx as (l1 & l2 & ->).
  apply NoDup_app in Hnd as (_ & Hl1 & [Hl2 _]%NoDup_cons).
  rewrite !filter_app, !filter_cons, !length_app.
  rewrite (filter_ext_in P Q l1), (filter_ext_in P Q l2).
  - destruct (decide (P x)), (decide (Q x)); cbn; lia.
  - intros y Hy. apply Hext; [apply elem_of_app; right; by right|]. by intros ->.
  - intros y Hy. apply Hext; [apply elem_of_app; by left|].
    intros ->. apply (Hl1 x Hy). by left.
Qed.

(** ** Reassigning the attributes of an article *)

Lemma reassign_article s article name v :
  registry_ok s → article ∈ all_articles s →
  assign article name v s = Returns tt (update_attr s article name v) ∧
  registry_ok (update_attr s article name v) ∧
  all_articles (update_attr s article name v) = all_articles s ∧
  all_magazines (update_attr s article name v) = all_magazines s ∧
  ∀ x name',
    attr (update_attr s article name v) x name' =
    if decide (x = article ∧ name' = name) then Some v else attr s x name'.
Proof.
  intros Hok Hin.
  assert (article_ok s article) as Hart.
  { destruct Hok as (_ & Ha & _). rewrite Forall_forall in Ha. by apply Ha. }
  pose proof (article_ok_allocated _ _ Hart) as Hl.
  destruct Hart as (Hc & _).
  destruct (update_attr_registries s article name v) as [Hra Hrm].
  split; [|split; [by apply registry_ok_update_attr|]].
  - rewrite assign_plain by (rewrite Hc; discriminate).
    rewrite setattr_eq. by rewrite decide_True.
  - split; [done|]. split; [done|]. intros x name'. by apply update_attr_attr.
Qed.

Lemma elem_of_articles_with s name self x :
  x ∈ articles_with s name self ↔
  x ∈ all_articles s ∧ attr s x name = Some (VRef self).
Proof. unfold articles_with. rewrite list_elem_of_filter. tauto. Qed.

Lemma reassigned_articles_with s article name v self :
  registry_ok s → article ∈ all_articles s →
  (article ∈ articles_with (update_attr s article name v) name self ↔ v = VRef self) ∧
  (∀ x, x ≠ article →
        x ∈ articles_with (update_attr s article name v) name self ↔
        x ∈ articles_with s name self).
Proof.
  intros Hok Hin.
  destruct (reassign_article s article name v Hok Hin) as (_ & _ & Hra & _ & Hattr).
  split.
  - rewrite elem_of_articles_with, Hra, Hattr, decide_True by done.
    split; [by intros [_ [= ->]]|by intros ->].
  - intros x Hne. rewrite !elem_of_articles_with, Hra, Hattr.
    by rewrite decide_False by by intros [? _].
Qed.

Lemma reassigned_article_count s article v m :
  registry_ok s → article ∈ all_articles s →
  article_count (update_attr s article "magazine" v) m +
    (if decide (attr s article "magazine" = Some (VRef m)) then 1 else 0) =
  article_count s m + (if decide (v = VRef m) then 1 else 0).
Proof.
  intros Hok Hin.
  destruct (reassign_article s article "magazine" v Hok Hin) as (_ & _ & Hra & _ & Hattr).
  unfold article_count, articles_with. rewrite Hra.
  assert (Hnd : NoDup (all_articles s)) by by destruct Hok.
  assert (Hext : ∀ y, y ∈ all_articles s → y ≠ article →
                      attr s y "magazine" = Some (VRef m) ↔
                      attr (update_attr s article "magazine" v) y "magazine"
                      = Some (VRef m)).
  { intros y _ Hne. rewrite Hattr. by rewrite decide_False by by intros [? _]. }
  pose proof (length_filter_change _ _ (all_articles s) article Hnd Hin Hext) as Heq.
  cbn beta in Heq. rewrite Hattr in Heq.
  rewrite (decide_True (P := article = article ∧ _)) in Heq by done.
  assert ((if decide (Some v = Some (VRef m)) then 1 else 0) =
          (if decide (v = VRef m) then 1 else 0)) as Hq.
  { repeat case_decide; congruence. }
  rewrite Hq in Heq. exact Heq.
Qed.

(** C9. Assigning any value to the [author] or [magazine] attribute of a
    registered article succeeds without validation, and the queries read the
    new value: the article belongs to [articles()] of exactly the instance
    now stored in the attribute, contributors and [top_publisher] are
    computed from the scans of the new state, and moving an article from one
    magazine to another adds one to the count of the new magazine and takes
    one from the count of the old one. *)
Theorem Article_reassignment s article v
    (Hok : registry_ok s) (Hin : article ∈ all_articles s) :
  (∃ s', assign article "author" v s = Returns tt s' ∧
         all_articles s' = all_articles s ∧
         attr s' article "author" = Some v ∧
         ∀ a, ∃ l, Author_articles a s' = Returns l s' ∧
                   (article ∈ l ↔ v = VRef a) ∧
                   (∀ x, x ≠ article → x ∈ l ↔ x ∈ articles_with s "author" a)) ∧
  (∃ s', assign article "magazine" v s = Returns tt s' ∧
         all_articles s' = all_articles s ∧
         all_magazines s' = all_magazines s ∧
         attr s' article "magazine" = Some v ∧
         (∀ m, ∃ l, Magazine_articles m s' = Returns l s' ∧
                    length l = article_count s' m ∧
                    (article ∈ l ↔ v = VRef m) ∧
                    (∀ x, x ≠ article → x ∈ l ↔ x ∈ articles_with s "magazine" m)) ∧
         (∀ m, ∃ cs, Magazine_contributors m s' = Returns cs s' ∧
                     ∀ a, a ∈ cs ↔ ∃ x, x ∈ articles_with s' "magazine" m ∧
                                        attr s' x "author" = Some a) ∧
         Magazine_top_publisher s' = Returns (top_of s') s' ∧
         (∀ old new,
            attr s article "magazine" = Some (VRef old) → v = VRef new → old ≠ new →
            article_count s' new = S (article_count s new) ∧
            S (article_count s' old) = article_count s old)).
Proof.
  split.
  - destruct (reassign_article s article "author" v Hok Hin)
      as (Hrun & Hok' & Hra & _ & Hattr).
    eexists. split; [exact Hrun|]. split; [done|].
    split; [by rewrite Hattr, decide_True|].
    intros a. eexists. split; [by apply Author_articles_eq|].
    by apply reassigned_articles_with.
  - destruct (reassign_article s article "magazine" v Hok Hin)
      as (Hrun & Hok' & Hra & Hrm & Hattr).
    eexists. split; [exact Hrun|]. do 2 (split; [done|]).
    split; [by rewrite Hattr, decide_True|].
    split; [|split; [|split]].
    + intros m. eexists. split; [by apply Magazine_articles_eq|].
      split; [done|]. by apply reassigned_articles_with.
    + intros m. eexists. split; [by apply Magazine_contributors_eq|].
      intros a. rewrite elem_of_list_of_set. apply elem_of_collect.
      apply articles_with_attrs; [done|set_solver].
    + by apply Magazine_top_publisher_eq.
    + intros old new Hold -> Hne.
      pose proof (reassigned_article_count s article (VRef new) new Hok Hin) as Hnew.
      pose proof (reassigned_article_count s article (VRef new) old Hok Hin) as Hcount.
      rewrite Hold in Hnew, Hcount.
      rewrite decide_False in Hnew by congruence.
      rewrite decide_True in Hnew by done.
      rewrite decide_True in Hcount by done.
      rewrite decide_False in Hcount by congruence. lia.
Qed.

Lemma Article_reassignment_witness :
  registry_ok module_state ∧
  6 ∈ all_articles module_state ∧
  attr module_state 6 "magazine" = Some (VRef 1) ∧
  (∃ s', assign 6 "author" (VInt 7) module_state = Returns tt s' ∧
         attr s' 6 "author" = Some (VInt 7)) ∧
  (∃ s', assign 6 "magazine" (VRef 0) module_state = Returns tt s' ∧
         article_count s' 0 = 3 ∧
         article_count s' 1 = 0).
Proof.
  assert (Hok : registry_ok module_state) by compute_done.
  assert (Hin : 6 ∈ all_articles module_state) by compute_done.
  assert (Hold : attr module_state 6 "magazine" = Some (VRef 1)) by compute_done.
  split; [exact Hok|]. split; [exact Hin|]. split; [exact Hold|]. split.
  - destruct (Article_reassignment module_state 6 (VInt 7) Hok Hin)
      as [(s' & Hrun & _ & Hattr & _) _].
    exists s'. split; [exact Hrun|exact Hattr].
  - destruct (Article_reassignment module_state 6 (VRef 0) Hok Hin)
      as [_ (s' & Hrun & _ & _ & _ & _ & _ & _ & Hmove)].
    destruct (Hmove 1 0 Hold eq_refl) as [Hnew Hgone]; [discriminate|].
    assert (article_count module_state 0 = 2) as E0 by compute_done.
    assert (article_count module_state 1 = 1) as E1 by compute_done.
    rewrite E0 in Hnew. rewrite E1 in Hgone.
    exists s'. split; [exact Hrun|]. split; [exact Hnew|]. by injection Hgone.
Defined.

(** ** Topic areas of an author *)

Lemma get_category_magazine s m c :
  class_of s (VRef m) = Some CMagazine → attr s m "_category" = Some c →
  get_category (VRef m) s = Returns c s.
Proof.
  intros Hc Hcat. unfold get_category, Magazine_category.
  by rewrite Hc, getattr_attr, Hcat.
Qed.

(** [Article(author, magazine, title)] stores an Author instance and, when
    [magazine] is a constructed Magazine, a magazine that has a category. *)
Lemma Article_new_written_by_author s author magazine title :
  valid_article s author magazine title →
  match Article_new author magazine title s with
  | Returns self s' => written_by_author s' self
  | Raises _ _ => False
  end.
Proof.
  intros Hv. rewrite Article_new_valid by done.
  unfold written_by_author. rewrite attr_last. unfold article_dict; cbn [obj_dict].
  rewrite lookup_insert_ne, lookup_insert_ne, lookup_insert_eq by done.
  destruct s as [h ra rm], Hv as (Ha & _). by eapply class_of_extend in Ha.
Qed.

Lemma Article_new_published_in_magazine s author m title :
  valid_article s author (VRef m) title →
  is_Some (attr s m "_category") →
  match Article_new author (VRef m) title s with
  | Returns self s' => published_in_magazine s' self
  | Raises _ _ => False
  end.
Proof.
  intros Hv Hcat. rewrite Article_new_valid by done.
  unfold published_in_magazine. rewrite attr_last. unfold article_dict; cbn [obj_dict].
  rewrite lookup_insert_ne, lookup_insert_eq by done.
  destruct Hv as (_ & Hm & _).
  pose proof (class_of_allocated _ _ _ Hm) as Hl.
  destruct s as [h ra rm]. split.
  - by eapply class_of_extend in Hm.
  - by rewrite (attr_extend h _ ra rm).
Qed.

Lemma published_in_magazine_inv s x :
  published_in_magazine s x →
  ∃ m c, attr s x "magazine" = Some (VRef m) ∧
         class_of s (VRef m) = Some CMagazine ∧
         attr s m "_category" = Some c.
Proof.
  unfold published_in_magazine.
  destruct (attr s x "magazine") as [[| | |m]|]; try done.
  intros [Hc [c Hcat]]. by exists m, c.
Qed.

(** C8. [author.topic_areas()] returns [None] if the author has no
    articles; otherwise it returns, without repetition, the categories of
    the magazines of the author's articles. *)
Theorem Author_topic_areas_spec s self
    (Hok : registry_ok s)
    (Hmag : Forall (published_in_magazine s) (articles_with s "author" self)) :
  ∃ r, Author_topic_areas self s = Returns r s ∧
       Author_articles self s = Returns (articles_with s "author" self) s ∧
       match r with
       | None => articles_with s "author" self = []
       | Some l =>
           articles_with s "author" self ≠ [] ∧
           NoDup l ∧
           ∀ c, c ∈ l ↔
                ∃ x m, x ∈ articles_with s "author" self ∧
                       attr s x "magazine" = Some (VRef m) ∧
                       attr s m "_category" = Some c
       end.
Proof.
  pose proof (articles_with_attrs s "author" self "magazine" Hok) as Hsome.
  specialize (Hsome ltac:(set_solver)).
  rewrite Forall_forall in Hmag.
  unfold Author_topic_areas, bind. rewrite Author_magazines_eq by done.
  set (arts := articles_with s "author" self) in *.
  destruct (list_of_set (attr_of s "magazine" <$> arts)) as [|v0 ms0] eqn:Ems.
  { eexists. split; [done|]. split; [by apply Author_articles_eq|].
    apply (proj1 (list_of_set_nil _)), fmap_nil_inv in Ems. done. }
  rewrite <- Ems.
  assert (Hne : arts ≠ []).
  { intros Hnil. by rewrite Hnil in Ems. }
  rewrite (mapM_pure get_category (category_of s)).
  - eexists. split; [done|]. split; [by apply Author_articles_eq|].
    split; [done|]. split; [apply NoDup_list_of_set|].
    intros c. rewrite elem_of_list_of_set, list_elem_of_fmap. split.
    + intros (v & -> & Hv).
      apply elem_of_list_of_set, elem_of_collect in Hv as (x & Hx & Hattr); [|done].
      destruct (published_in_magazine_inv s x (Hmag x Hx)) as (m & c & Hm & _ & Hcat).
      rewrite Hm in Hattr. injection Hattr as <-.
      exists x, m. repeat split; try done. unfold category_of, attr_of. by rewrite Hcat.
    + intros (x & m & Hx & Hm & Hcat). exists (VRef m). split.
      * unfold category_of, attr_of. by rewrite Hcat.
      * apply elem_of_list_of_set, elem_of_collect; [done|]. by exists x.
  - intros v Hv.
    apply elem_of_list_of_set, elem_of_collect in Hv as (x & Hx & Hattr); [|done].
    destruct (published_in_magazine_inv s x (Hmag x Hx)) as (m & c & Hm & Hc & Hcat).
    rewrite Hm in Hattr. injection Hattr as <-.
    rewrite (get_category_magazine s m c) by done.
    unfold category_of, attr_of. by rewrite Hcat.
Qed.

Lemma Author_topic_areas_spec_witness :
  registry_ok module_state ∧
  Forall (published_in_magazine module_state) (articles_with module_state "author" 2) ∧
  (∃ l, Author_topic_areas 2 module_state = Returns (Some l) module_state ∧
        ∀ c, c ∈ l ↔ c = VStr "Technology" ∨ c = VStr "Health") ∧
  (∃ a s', Author_new (VStr "Carol") module_state = Returns a s' ∧
           Author_topic_areas a s' = Returns None s').
Proof.
  assert (Hok : registry_ok module_state) by compute_done.
  assert (Hmag : Forall (published_in_magazine module_state)
                        (articles_with module_state "author" 2)) by compute_done.
  split; [exact Hok|]. split; [exact Hmag|]. split.
  - destruct (Author_topic_areas_spec module_state 2 Hok Hmag) as (r & Hrun & _ & Hr).
    assert (Harts : articles_with module_state "author" 2 = [4; 6]) by compute_done.
    rewrite Harts in Hr. destruct r as [l|]; [|discriminate Hr].
    exists l. split; [exact Hrun|]. destruct Hr as (_ & _ & Hl).
    intros c. rewrite Hl. split.
    + intros (x & m & Hx & Hm & Hcat).
      apply elem_of_cons in Hx as [->|Hx].
      { assert (m = 0) as -> by (vm_compute in Hm; congruence).
        left. vm_compute in Hcat. congruence. }
      apply list_elem_of_singleton in Hx as ->.
      assert (m = 1) as -> by (vm_compute in Hm; congruence).
      right. vm_compute in Hcat. congruence.
    + intros [->| ->].
      * exists 4, 0. split; [by left|]. split; compute_done.
      * exists 6, 1. split; [by right; left|]. split; compute_done.
  - rewrite Author_new_valid by (simpl; lia).
    eexists _, _. split; [reflexivity|].
    set (s' := with_heap _ _).
    assert (Hok' : registry_ok s') by compute_done.
    assert (length (heap module_state) = 7) as -> by compute_done.
    assert (Harts : articles_with s' "author" 7 = []) by compute_done.
    assert (Hmag' : Forall (published_in_magazine s') (articles_with s' "author" 7)).
    { rewrite Harts. constructor. }
    destruct (Author_topic_areas_spec s' 7 Hok' Hmag') as (r & Hrun & _ & Hr).
    rewrite Hrun. destruct r as [l|]; [|reflexivity].
    destruct Hr as (Hne & _). exfalso. apply Hne. exact Harts.
Defined.

(** ** Contributing authors of a magazine *)

Lemma written_by_author_inv s x :
  written_by_author s x →
  ∃ a, attr s x "author" = Some (VRef a) ∧ class_of s (VRef a) = Some CAuthor.
Proof.
  unfold written_by_author. destruct (attr s x "author") as [[| | |a]|]; try done.
  intros Hc. by exists a.
Qed.

Lemma frequent_test s self a :
  registry_ok s → class_of s (VRef a) = Some CAuthor →
  (do articles <- call_articles (VRef a);
   do hits <- filterM (fun article =>
                         do m <- getattr (VRef article) "magazine";
                         ret (py_eq m (VRef self)))
                      articles;
   ret (2 <? sum_list ((fun _ => 1) <$> hits))) s =
  Returns (bool_decide (frequent s self (VRef a))) s.
Proof.
  intros Hok Ha.
  erewrite bind_eq; [|by apply call_articles_author].
  erewrite bind_eq;
    [|apply scan_attr, articles_with_attrs; [done|set_solver]].
  unfold ret. f_equal. rewrite sum_list_fmap_const, Nat.mul_1_r.
  unfold frequent, written_for.
  destruct (2 <? _) eqn:Hlt.
  - apply Nat.ltb_lt in Hlt. by rewrite bool_decide_eq_true_2.
  - apply Nat.ltb_ge in Hlt. rewrite bool_decide_eq_false_2; [done|lia].
Qed.

Lemma written_for_contributor s a m :
  registry_ok s → 0 < written_for s a m →
  VRef a ∈ attr_of s "author" <$> articles_with s "magazine" m.
Proof.
  intros Hok Hpos. unfold written_for in Hpos.
  destruct (filter _ _) as [|x l] eqn:E; [cbn in Hpos; lia|].
  assert (x ∈ x :: l) as Hx by left. rewrite <- E in Hx.
  apply list_elem_of_filter in Hx as [Hm Hx].
  apply elem_of_articles_with in Hx as [Hreg Ha].
  apply elem_of_collect; [apply articles_with_attrs; [done|set_solver]|].
  exists x. split; [|done]. by apply elem_of_articles_with.
Qed.

(** C4. [magazine.contributing_authors()] returns [None] when the magazine
    has no contributors and when no author has written more than 2 articles
    for it; otherwise it returns, without repetition, exactly the authors
    who have written more than 2 articles for this magazine. *)
Theorem Magazine_contributing_authors_spec s self
    (Hok : registry_ok s)
    (Hauth : Forall (written_by_author s) (articles_with s "magazine" self)) :
  ∃ cs r,
    Magazine_contributors self s = Returns cs s ∧
    Magazine_contributing_authors self s = Returns r s ∧
    (cs = [] → r = None) ∧
    match r with
    | None => ∀ a, written_for s a self ≤ 2
    | Some l =>
        l ≠ [] ∧ NoDup l ∧
        ∀ v, v ∈ l ↔ ∃ a, v = VRef a ∧ 2 < written_for s a self
    end.
Proof.
  pose proof (articles_with_attrs s "magazine" self "author" Hok) as Hsome.
  specialize (Hsome ltac:(set_solver)).
  rewrite Forall_forall in Hauth.
  set (cs := list_of_set (attr_of s "author" <$> articles_with s "magazine" self)).
  assert (Hcs : ∀ v, v ∈ cs → ∃ a, v = VRef a ∧ class_of s (VRef a) = Some CAuthor).
  { intros v Hv.
    apply elem_of_list_of_set, elem_of_collect in Hv as (x & Hx & Hattr); [|done].
    destruct (written_by_author_inv s x (Hauth x Hx)) as (a & Ha & Hc).
    exists a. split; [congruence|done]. }
  assert (Hfreq : ∀ v, frequent s self v → v ∈ cs).
  { intros [| | |a] Hv; try done. apply elem_of_list_of_set.
    apply written_for_contributor; [done|]. cbn in Hv. lia. }
  assert (Hmem : ∀ v, v ∈ filter (frequent s self) cs ↔
                      ∃ a, v = VRef a ∧ 2 < written_for s a self).
  { intros v. rewrite list_elem_of_filter. split.
    - intros [Hv _]. destruct v as [| | |a]; try done. by exists a.
    - intros (a & -> & Hlt). split; [done|]. by apply Hfreq. }
  exists cs. unfold Magazine_contributing_authors, bind.
  rewrite Magazine_contributors_eq by done. fold cs.
  destruct cs as [|v0 cs0] eqn:Ecs.
  { eexists. split; [done|]. split; [done|]. split; [done|].
    intros a. destruct (decide (written_for s a self ≤ 2)) as [|Hgt]; [done|].
    assert (VRef a ∈ @nil value) as Hin by (apply Hfreq; cbn; lia).
    by apply elem_of_nil in Hin. }
  rewrite <- Ecs in *.
  rewrite (filterM_pure _ (frequent s self)).
  - unfold ret. eexists. split; [done|]. split; [done|].
    split; [by rewrite Ecs|].
    destruct (filter (frequent s self) cs) as [|v l] eqn:Ef.
    + intros a. destruct (decide (written_for s a self ≤ 2)) as [|Hgt]; [done|].
      assert (VRef a ∈ @nil value) as Hin.
      { apply Hmem. exists a. split; [done|lia]. }
      by apply elem_of_nil in Hin.
    + rewrite <- Ef. split; [by rewrite Ef|]. split.
      * apply NoDup_filter, NoDup_list_of_set.
      * intros v1. rewrite Ef. apply Hmem.
  - intros v Hv. destruct (Hcs v Hv) as (a & -> & Hc). by apply frequent_test.
Qed.

Lemma Magazine_contributing_authors_spec_witness :
  registry_ok busy_state ∧
  Forall (written_by_author busy_state) (articles_with busy_state "magazine" 0) ∧
  (∃ l, Magazine_contributing_authors 0 busy_state = Returns (Some l) busy_state ∧
        VRef 2 ∈ l ∧ VRef 3 ∉ l) ∧
  Magazine_contributing_authors 0 module_state = Returns None module_state.
Proof.
  assert (Hok : registry_ok busy_state) by compute_done.
  assert (Hauth : Forall (written_by_author busy_state)
                         (articles_with busy_state "magazine" 0)) by compute_done.
  assert (Hok0 : registry_ok module_state) by compute_done.
  assert (Hauth0 : Forall (written_by_author module_state)
                          (articles_with module_state "magazine" 0)) by compute_done.
  assert (H2 : written_for busy_state 2 0 = 3) by compute_done.
  assert (H3 : written_for busy_state 3 0 = 1) by compute_done.
  assert (H0 : written_for module_state 2 0 = 1) by compute_done.
  assert (H1 : written_for module_state 3 0 = 1) by compute_done.
  split; [exact Hok|]. split; [exact Hauth|]. split.
  - destruct (Magazine_contributing_authors_spec busy_state 0 Hok Hauth)
      as (cs & r & _ & Hrun & _ & Hr).
    destruct r as [l|].
    + exists l. split; [exact Hrun|]. destruct Hr as (_ & _ & Hl). split.
      * apply Hl. exists 2. split; [reflexivity|]. rewrite H2. lia.
      * intros Hin. apply Hl in Hin as (a & [= <-] & Hlt). rewrite H3 in Hlt. lia.
    + specialize (Hr 2). rewrite H2 in Hr. lia.
  - destruct (Magazine_contributing_authors_spec module_state 0 Hok0 Hauth0)
      as (cs & r & Hcs & Hrun & _ & Hr).
    rewrite Hrun. destruct r as [l|]; [|reflexivity].
    destruct Hr as (Hne & _ & Hl). exfalso.
    destruct l as [|v l]; [by apply Hne|].
    destruct (proj1 (Hl v) ltac:(left)) as (a & -> & Hlt).
    assert (Hin : VRef a ∈ cs).
    { rewrite Magazine_contributors_eq in Hcs by exact Hok0.
      apply Returns_inj in Hcs as <-. apply elem_of_list_of_set.
      apply written_for_contributor; [exact Hok0|lia]. }
    assert (Hcs0 : Magazine_contributors 0 module_state =
                   Returns [VRef 2; VRef 3] module_state) by compute_done.
    rewrite Hcs0 in Hcs. apply Returns_inj in Hcs as <-.
    apply elem_of_cons in Hin as [[= ->]|Hin]; [rewrite H0 in Hlt; lia|].
    apply list_elem_of_singleton in Hin as [= ->]. rewrite H1 in Hlt. lia.
Defined.

(** * Part IV: further properties of the three classes *)

(** ** [Author(name)] *)

(** X1. [Author(name)] raises [ValueError] unless [name] is a non-empty
    string; otherwise it returns a new Author instance that stores the name.
    Either way both registries and all existing objects are as before:
    authors are recorded nowhere. *)
Theorem Author_creation s name :
  match Author_new name s with
  | Returns self s' =>
      nonempty_string name ∧
      ¬ allocated s self ∧
      class_of s' (VRef self) = Some CAuthor ∧
      getattr (VRef self) "name" s' = Returns name s' ∧
      unaltered s s'
  | Raises e s' =>
      ¬ nonempty_string name ∧
      e = ValueError "Name must be a non-empty string." ∧
      unaltered s s'
  end.
Proof.
  destruct (decide (nonempty_string name)) as [Hv|Hv].
  - rewrite Author_new_valid by exact Hv.
    split; [done|]. split; [unfold allocated; lia|].
    destruct s as [h ra rm]; unfold with_heap; cbn [heap all_articles all_magazines].
    split; [apply class_of_last|]. split.
    + rewrite getattr_attr, attr_last. cbn [obj_dict]. by rewrite lookup_insert_eq.
    + apply (unaltered_alloc (State h ra rm)).
  - assert (negb (is_str name) || (len name =? 0) = true) as Hn.
    { destruct (negb (is_str name) || _) eqn:E; [done|].
      by apply is_str_valid_category in E. }
    destruct s as [h ra rm].
    unfold Author_new, Author__init__, new, bind, with_heap.
    cbn [heap all_articles all_magazines]. rewrite Hn.
    split; [done|]. split; [done|]. apply (unaltered_alloc (State h ra rm)).
Qed.

(** X2. The name of an Author is checked by the constructor only: a later
    [author.name = v] stores any value, also one the constructor rejects,
    and changes nothing else. *)
Theorem Author_name_not_revalidated s self v
    (Ha : class_of s (VRef self) = Some CAuthor) :
  ∃ s', assign self "name" v s = Returns tt s' ∧
        getattr (VRef self) "name" s' = Returns v s' ∧
        class_of s' (VRef self) = Some CAuthor ∧
        all_articles s' = all_articles s ∧
        all_magazines s' = all_magazines s ∧
        ∀ l name', l ≠ self → attr s' l name' = attr s l name'.
Proof.
  pose proof (class_of_allocated _ _ _ Ha) as Hl.
  exists (update_attr s self "name" v).
  destruct (update_attr_registries s self "name" v) as [Hra Hrm].
  split.
  { rewrite assign_plain by (rewrite Ha; discriminate).
    rewrite setattr_eq. by rewrite decide_True. }
  split.
  { rewrite getattr_attr, update_attr_attr by done. by rewrite decide_True. }
  split; [by rewrite update_attr_class_of|].
  split; [done|]. split; [done|].
  intros l name' Hne. rewrite update_attr_attr by done.
  by rewrite decide_False by by intros [? _].
Qed.

Lemma Author_name_not_revalidated_witness :
  class_of module_state (VRef 2) = Some CAuthor ∧
  ¬ nonempty_string (VStr "") ∧
  ∃ s', assign 2 "name" (VStr "") module_state = Returns tt s' ∧
        getattr (VRef 2) "name" s' = Returns (VStr "") s'.
Proof.
  assert (Ha : class_of module_state (VRef 2) = Some CAuthor) by compute_done.
  split; [exact Ha|]. split; [intros Hne; exact (Hne eq_refl)|].
  destruct (Author_name_not_revalidated module_state 2 (VStr "") Ha)
    as (s' & Hrun & Hget & _).
  exists s'. split; [exact Hrun|exact Hget].
Defined.

(** ** The two collecting queries and [article_titles] *)

Lemma collected_bounds s name l :
  Forall (fun article => is_Some (attr s article name)) l →
  NoDup (list_of_set (attr_of s name <$> l)) ∧
  (∀ v, v ∈ list_of_set (attr_of s name <$> l) ↔
        ∃ article, article ∈ l ∧ attr s article name = Some v) ∧
  (list_of_set (attr_of s name <$> l) = [] ↔ l = []) ∧
  length (list_of_set (attr_of s name <$> l)) ≤ length l.
Proof.
  intros Hall. split; [apply NoDup_list_of_set|]. split; [|split].
  - intros v. rewrite elem_of_list_of_set. by apply elem_of_collect.
  - rewrite list_of_set_nil. split; [apply fmap_nil_inv|by intros ->].
  - rewrite <- (length_fmap (attr_of s name) l).
    apply submseteq_length, NoDup_submseteq; [apply NoDup_list_of_set|].
    intros v. by rewrite elem_of_list_of_set.
Qed.

(** X3. [author.magazines()] returns, each once, exactly the values stored
    as the magazine of the author's articles; it is empty exactly when the
    author has no articles, and never longer than the list of articles. *)
Theorem Author_magazines_spec s self (Hok : registry_ok s) :
  ∃ ms, Author_magazines self s = Returns ms s ∧
        NoDup ms ∧
        (∀ v, v ∈ ms ↔ ∃ article, article ∈ articles_with s "author" self ∧
                                  attr s article "magazine" = Some v) ∧
        (ms = [] ↔ articles_with s "author" self = []) ∧
        length ms ≤ length (articles_with s "author" self).
Proof.
  eexists. split; [by apply Author_magazines_eq|].
  apply collected_bounds, articles_with_attrs; [done|].
  rewrite !elem_of_cons. tauto.
Qed.

Lemma Author_magazines_spec_witness :
  registry_ok module_state ∧
  ∃ ms, Author_magazines 2 module_state = Returns ms module_state ∧
        length ms ≤ 2 ∧ (VRef 0 ∈ ms) ∧ (VRef 1 ∈ ms).
Proof.
  assert (Hok : registry_ok module_state) by compute_done.
  split; [exact Hok|].
  destruct (Author_magazines_spec module_state 2 Hok) as (ms & Hrun & _ & Hin & _ & Hlen).
  assert (Harts : articles_with module_state "author" 2 = [4; 6]) by compute_done.
  rewrite Harts in Hin, Hlen.
  exists ms. split; [exact Hrun|]. split; [exact Hlen|]. split.
  - apply Hin. exists 4. split; [left|compute_done].
  - apply Hin. exists 6. split; [right; left|compute_done].
Defined.

(** X4. [magazine.contributors()] returns, each once, exactly the values
    stored as the author of the magazine's articles; it is empty exactly
    when the magazine has no articles, and never longer than the list of
    articles. *)
Theorem Magazine_contributors_spec s self (Hok : registry_ok s) :
  ∃ cs, Magazine_contributors self s = Returns cs s ∧
        NoDup cs ∧
        (∀ v, v ∈ cs ↔ ∃ article, article ∈ articles_with s "magazine" self ∧
                                  attr s article "author" = Some v) ∧
        (cs = [] ↔ articles_with s "magazine" self = []) ∧
        length cs ≤ article_count s self.
Proof.
  eexists. split; [by apply Magazine_contributors_eq|].
  apply collected_bounds, articles_with_attrs; [done|].
  rewrite !elem_of_cons. tauto.
Qed.

Lemma Magazine_contributors_spec_witness :
  registry_ok module_state ∧
  ∃ cs, Magazine_contributors 1 module_state = Returns cs module_state ∧
        length cs ≤ 1 ∧ (VRef 2 ∈ cs).
Proof.
  assert (Hok : registry_ok module_state) by compute_done.
  split; [exact Hok|].
  destruct (Magazine_contributors_spec module_state 1 Hok)
    as (cs & Hrun & _ & Hin & _ & Hlen).
  assert (Hcount : article_count module_state 1 = 1) by compute_done.
  assert (Harts : articles_with module_state "magazine" 1 = [6]) by compute_done.
  rewrite Hcount in Hlen. rewrite Harts in Hin.
  exists cs. split; [exact Hrun|]. split; [exact Hlen|].
  apply Hin. exists 6. split; [left|compute_done].
Defined.

(** X5. The relation is symmetric: a magazine is among [author.magazines()]
    exactly when the author is among [magazine.contributors()], and both
    hold exactly when some registered article has that author and that
    magazine. *)
Theorem magazines_contributors_symmetric s a m (Hok : registry_ok s) :
  ∃ ms cs,
    Author_magazines a s = Returns ms s ∧
    Magazine_contributors m s = Returns cs s ∧
    (VRef m ∈ ms ↔ VRef a ∈ cs) ∧
    (VRef m ∈ ms ↔ 0 < written_for s a m).
Proof.
  eexists _, _. split; [by apply Author_magazines_eq|].
  split; [by apply Magazine_contributors_eq|].
  rewrite !elem_of_list_of_set.
  rewrite !elem_of_collect
    by (apply articles_with_attrs; [done|rewrite !elem_of_cons; tauto]).
  assert ((∃ x, x ∈ articles_with s "author" a ∧ attr s x "magazine" = Some (VRef m))
          ↔ 0 < written_for s a m) as Hpos.
  { unfold written_for. split.
    - intros (x & Hx & Hm).
      assert (x ∈ filter (fun article => attr s article "magazine" = Some (VRef m))
                         (articles_with s "author" a)) as Hin
        by by apply list_elem_of_filter.
      destruct (filter _ _); [by apply elem_of_nil in Hin|cbn; lia].
    - intros Hlt. destruct (filter _ _) as [|x l] eqn:E; [cbn in Hlt; lia|].
      assert (x ∈ x :: l) as Hin by left. rewrite <- E in Hin.
      apply list_elem_of_filter in Hin as [Hm Hx]. by exists x. }
  split; [|exact Hpos].
  split; intros (x & Hx & Hattr); exists x;
    apply elem_of_articles_with in Hx as [Hreg Hother];
    (split; [by apply elem_of_articles_with|done]).
Qed.

Lemma magazines_contributors_symmetric_witness :
  registry_ok module_state ∧
  ∃ ms cs,
    Author_magazines 3 module_state = Returns ms module_state ∧
    Magazine_contributors 1 module_state = Returns cs module_state ∧
    (VRef 1 ∉ ms) ∧ (VRef 3 ∉ cs).
Proof.
  assert (Hok : registry_ok module_state) by compute_done.
  split; [exact Hok|].
  destruct (magazines_contributors_symmetric module_state 3 1 Hok)
    as (ms & cs & Hms & Hcs & Hsym & Hpos).
  assert (Hzero : written_for module_state 3 1 = 0) by compute_done.
  rewrite Hzero in Hpos.
  exists ms, cs. split; [exact Hms|]. split; [exact Hcs|].
  assert (Hno : VRef 1 ∉ ms).
  { intros Hin. apply Hpos in Hin. exact (Nat.lt_irrefl 0 Hin). }
  split; [exact Hno|]. intros Hin. apply Hno, Hsym, Hin.
Defined.

(** X6. [magazine.article_titles()] returns [None] exactly when the magazine
    has no articles; otherwise it returns the titles of its articles in
    registry order, one per article, repeated titles included. *)
Theorem Magazine_article_titles_spec s self (Hok : registry_ok s) :
  ∃ r, Magazine_article_titles self s = Returns r s ∧
       match r with
       | None => article_count s self = 0
       | Some titles =>
           0 < article_count s self ∧
           length titles = article_count s self ∧
           Forall2 (fun article title => attr s article "title" = Some title)
                   (articles_with s "magazine" self) titles
       end.
Proof.
  pose proof (articles_with_attrs s "magazine" self "title" Hok) as Hsome.
  specialize (Hsome ltac:(rewrite !elem_of_cons; tauto)).
  unfold Magazine_article_titles, bind.
  rewrite Magazine_articles_eq by done. rewrite collect_attr by done.
  unfold ret, article_count.
  assert (Hall : Forall2 (fun article title => attr s article "title" = Some title)
                         (articles_with s "magazine" self)
                         (attr_of s "title" <$> articles_with s "magazine" self)).
  { apply Forall2_fmap_r, Forall_Forall2_diag.
    eapply Forall_impl; [exact Hsome|]. intros x [t Ht].
    unfold compose, attr_of. by rewrite Ht. }
  destruct (articles_with s "magazine" self) as [|x l] eqn:E.
  - by eexists.
  - eexists. split; [done|]. cbn [fmap list_fmap] in *.
    split; [cbn; lia|]. split; [by rewrite length_cons, length_fmap|done].
Qed.

Lemma Magazine_article_titles_spec_witness :
  registry_ok module_state ∧
  Magazine_article_titles 0 module_state =
    Returns (Some [VStr "Latest Tech Trends"; VStr "AI in Healthcare"]) module_state.
Proof.
  assert (Hok : registry_ok module_state) by compute_done.
  split; [exact Hok|].
  destruct (Magazine_article_titles_spec module_state 0 Hok) as (r & Hrun & Hr).
  rewrite Hrun. f_equal.
  assert (Hcount : article_count module_state 0 = 2) by compute_done.
  assert (Harts : articles_with module_state "magazine" 0 = [4; 5]) by compute_done.
  rewrite Hcount, Harts in Hr.
  destruct r as [titles|]; [|exfalso; exact (Nat.neq_succ_0 _ Hr)].
  destruct Hr as (_ & _ & Hall). f_equal.
  apply Forall2_cons_inv_l in Hall as (t1 & l1 & H1 & Hall & ->).
  apply Forall2_cons_inv_l in Hall as (t2 & l2 & H2 & Hall & ->).
  apply Forall2_nil_inv_l in Hall as ->.
  assert (attr module_state 4 "title" = Some (VStr "Latest Tech Trends")) as E1
    by compute_done.
  assert (attr module_state 5 "title" = Some (VStr "AI in Healthcare")) as E2
    by compute_done.
  rewrite E1 in H1. rewrite E2 in H2.
  by injection H1 as <-; injection H2 as <-.
Defined.

(** ** Assignments after construction *)

(** X7. The title of an Article is checked by the constructor only: a later
    [article.title = v] stores any value, and [article_titles()] of the
    article's magazine then lists [v] in the place of the old title, the
    other titles being as before. *)
Theorem Article_title_not_revalidated s article m v
    (Hok : registry_ok s) (Hin : article ∈ all_articles s)
    (Hm : attr s article "magazine" = Some (VRef m)) :
  ∃ s' titles,
    assign article "title" v s = Returns tt s' ∧
    getattr (VRef article) "title" s' = Returns v s' ∧
    Magazine_article_titles m s' = Returns (Some titles) s' ∧
    (v ∈ titles) ∧
    titles = (fun a => if decide (a = article) then v else attr_of s "title" a)
               <$> articles_with s "magazine" m.
Proof.
  destruct (reassign_article s article "title" v Hok Hin)
    as (Hrun & Hok' & Hra & Hrm & Hattr).
  set (s' := update_attr s article "title" v) in *.
  assert (Harts : articles_with s' "magazine" m = articles_with s "magazine" m).
  { apply articles_with_agree; [done|]. intros l _. rewrite Hattr.
    by rewrite decide_False by by intros [_ ?]. }
  assert (Hmem : article ∈ articles_with s "magazine" m)
    by by apply elem_of_articles_with.
  assert (Htitles : attr_of s' "title" <$> articles_with s "magazine" m =
                    (fun a => if decide (a = article) then v else attr_of s "title" a)
                      <$> articles_with s "magazine" m).
  { apply list_fmap_ext. intros i a _. unfold attr_of. rewrite Hattr.
    destruct (decide (a = article)) as [->|Hne].
    - by rewrite decide_True.
    - by rewrite decide_False by by intros [? _]. }
  exists s', (attr_of s' "title" <$> articles_with s "magazine" m).
  split; [exact Hrun|]. split.
  { rewrite getattr_attr, Hattr. by rewrite decide_True. }
  split.
  { unfold Magazine_article_titles, bind.
    rewrite Magazine_articles_eq by done. rewrite Harts.
    rewrite collect_attr.
    - unfold ret. destruct (articles_with s "magazine" m) as [|x l] eqn:E; [|done].
      by apply elem_of_nil in Hmem.
    - rewrite <- Harts. apply articles_with_attrs; [done|].
      rewrite !elem_of_cons. tauto. }
  split; [|exact Htitles].
  rewrite Htitles. apply list_elem_of_fmap. exists article.
  split; [by rewrite decide_True|done].
Qed.

Lemma Article_title_not_revalidated_witness :
  registry_ok module_state ∧
  6 ∈ all_articles module_state ∧
  attr module_state 6 "magazine" = Some (VRef 1) ∧
  ¬ valid_title (VStr "Hi") ∧
  ∃ s', assign 6 "title" (VStr "Hi") module_state = Returns tt s' ∧
        Magazine_article_titles 1 s' = Returns (Some [VStr "Hi"]) s'.
Proof.
  assert (Hok : registry_ok module_state) by compute_done.
  assert (Hin : 6 ∈ all_articles module_state) by compute_done.
  assert (Hm : attr module_state 6 "magazine" = Some (VRef 1)) by compute_done.
  split; [exact Hok|]. split; [exact Hin|]. split; [exact Hm|].
  split; [simpl; lia|].
  destruct (Article_title_not_revalidated module_state 6 1 (VStr "Hi") Hok Hin Hm)
    as (s' & titles & Hrun & _ & Htitles & _ & ->).
  exists s'. split; [exact Hrun|]. rewrite Htitles.
  assert (Harts : articles_with module_state "magazine" 1 = [6]) by compute_done.
  by rewrite Harts.
Defined.

Lemma Magazine_getter_attr s self name c :
  getattr (VRef self) name s = Returns c s ↔ attr s self name = Some c.
Proof.
  rewrite getattr_attr. destruct (attr s self name); split; congruence.
Qed.

(** X8. Reading back a Magazine property returns what was last assigned:
    after a valid [magazine.name = v] the getter of [name] returns [v] and
    the category is as before, and the same holds with the two properties
    exchanged. *)
Theorem Magazine_property_round_trip s self v
    (Hm : class_of s (VRef self) = Some CMagazine) :
  (valid_name v →
   ∃ s', assign self "name" v s = Returns tt s' ∧
         Magazine_name self s' = Returns v s' ∧
         ∀ c, Magazine_category self s = Returns c s →
              Magazine_category self s' = Returns c s') ∧
  (valid_category v →
   ∃ s', assign self "category" v s = Returns tt s' ∧
         Magazine_category self s' = Returns v s' ∧
         ∀ n, Magazine_name self s = Returns n s →
              Magazine_name self s' = Returns n s').
Proof.
  pose proof (class_of_allocated _ _ _ Hm) as Hl.
  unfold Magazine_name, Magazine_category. split; intros Hv.
  - rewrite assign_Magazine_name, Magazine_name_setter_eq by done.
    rewrite decide_True, setattr_eq, decide_True by done.
    eexists. split; [done|]. split.
    + apply Magazine_getter_attr. rewrite update_attr_attr by done.
      by rewrite decide_True.
    + intros c Hc. apply Magazine_getter_attr in Hc. apply Magazine_getter_attr.
      rewrite update_attr_attr by done. by rewrite decide_False by by intros [_ ?].
  - rewrite assign_Magazine_category, Magazine_category_setter_eq by done.
    rewrite decide_True, setattr_eq, decide_True by done.
    eexists. split; [done|]. split.
    + apply Magazine_getter_attr. rewrite update_attr_attr by done.
      by rewrite decide_True.
    + intros c Hc. apply Magazine_getter_attr in Hc. apply Magazine_getter_attr.
      rewrite update_attr_attr by done. by rewrite decide_False by by intros [_ ?].
Qed.

Lemma Magazine_property_round_trip_witness :
  class_of module_state (VRef 0) = Some CMagazine ∧
  valid_name (VStr "Wired") ∧
  Magazine_category 0 module_state = Returns (VStr "Technology") module_state ∧
  ∃ s', assign 0 "name" (VStr "Wired") module_state = Returns tt s' ∧
        Magazine_name 0 s' = Returns (VStr "Wired") s' ∧
        Magazine_category 0 s' = Returns (VStr "Technology") s'.
Proof.
  assert (Hm : class_of module_state (VRef 0) = Some CMagazine) by compute_done.
  assert (Hv : valid_name (VStr "Wired")) by (simpl; lia).
  assert (Hc : Magazine_category 0 module_state
               = Returns (VStr "Technology") module_state) by compute_done.
  split; [exact Hm|]. split; [exact Hv|]. split; [exact Hc|].
  destruct (Magazine_property_round_trip module_state 0 (VStr "Wired") Hm) as [Hname _].
  destruct (Hname Hv) as (s' & Hrun & Hget & Hframe).
  exists s'. split; [exact Hrun|]. split; [exact Hget|]. exact (Hframe _ Hc).
Defined.

(** ** The constructors in full *)

(** X9. [Magazine(name, category)] returns exactly when the name is a
    string of 2 to 16 characters and the category a non-empty string; the
    new instance then reads back both arguments and is the last element of
    [all_magazines].  Otherwise it raises [ValueError]; the name is checked
    first, so with two invalid arguments the message is the one about the
    name. *)
Theorem Magazine_creation s name category :
  match Magazine_new name category s with
  | Returns self s' =>
      valid_name name ∧ valid_category category ∧
      ¬ allocated s self ∧
      class_of s' (VRef self) = Some CMagazine ∧
      Magazine_name self s' = Returns name s' ∧
      Magazine_category self s' = Returns category s' ∧
      all_magazines s' = all_magazines s ++ [self] ∧
      all_articles s' = all_articles s
  | Raises e s' =>
      ¬ (valid_name name ∧ valid_category category) ∧
      e = ValueError (Magazine_error name) ∧
      unaltered s s'
  end.
Proof.
  destruct (decide (valid_name name ∧ valid_category category)) as [[Hn Hc]|Hv].
  - rewrite Magazine_new_valid by done.
    do 2 (split; [done|]). split; [unfold allocated; lia|].
    destruct s as [h ra rm]; cbn [heap all_articles all_magazines].
    split; [apply class_of_last|].
    unfold Magazine_name, Magazine_category.
    rewrite !getattr_attr, !attr_last. unfold magazine_dict; cbn [obj_dict].
    rewrite lookup_insert_ne, !lookup_insert_eq by done. done.
  - destruct s as [h ra rm].
    unfold Magazine_new, Magazine__init__, Magazine_name_setter,
      Magazine_category_setter, new, bind, with_heap, Magazine_error.
    cbn [heap all_articles all_magazines].
    destruct (negb (is_str name) || _) eqn:Hn.
    + rewrite decide_False by (rewrite <- is_str_valid_name; congruence).
      split; [done|]. split; [done|]. apply (unaltered_alloc (State h ra rm)).
    + apply is_str_valid_name in Hn. rewrite decide_True by done.
      rewrite setattr_last. cbn [heap all_articles all_magazines obj_class obj_dict].
      destruct (negb (is_str category) || _) eqn:Hc.
      * split; [done|]. split; [done|].
        repeat split. intros l Hl. cbn. by rewrite lookup_app_l.
      * apply is_str_valid_category in Hc. tauto.
Qed.

(** X10. When [Article(author, magazine, title)] fails, the message names
    the first failing check in the order author, magazine, title, and
    nothing is registered. *)
Theorem Article_validation_order s author magazine title
    (Hv : ¬ valid_article s author magazine title) :
  ∃ s', Article_new author magazine title s =
          Raises (ValueError (Article_error s author magazine)) s' ∧
        unaltered s s'.
Proof.
  exists (with_heap (heap s ++ [Object CArticle ∅]) s).
  split; [|apply unaltered_alloc].
  destruct s as [h ra rm].
  unfold Article_new, Article__init__, new, isinstance, bind, with_heap, Article_error.
  run_init.
  case_bool_decide as Ha; run_init.
  - rewrite decide_True by done.
    case_bool_decide as Hm; run_init.
    + rewrite decide_True by done.
      destruct (negb (is_str title) || _) eqn:Ht; [done|].
      apply is_str_valid_title in Ht. by destruct Hv.
    + by rewrite decide_False.
  - by rewrite decide_False.
Qed.

Lemma Article_validation_order_witness :
  ¬ valid_article module_state VNone (VInt 3) (VStr "Test") ∧
  (∃ s', Article_new VNone (VInt 3) (VStr "Test") module_state =
         Raises (ValueError "Author must be an instance of the Author class.") s') ∧
  ¬ valid_article module_state (VRef 2) (VInt 3) (VStr "Test") ∧
  (∃ s', Article_new (VRef 2) (VInt 3) (VStr "Test") module_state =
         Raises (ValueError "Magazine must be an instance of the Magazine class.") s').
Proof.
  assert (H1 : ¬ valid_article module_state VNone (VInt 3) (VStr "Test")).
  { by intros [? _]. }
  assert (H2 : ¬ valid_article module_state (VRef 2) (VInt 3) (VStr "Test")).
  { by intros (_ & ? & _). }
  assert (E1 : Article_error module_state VNone (VInt 3) =
               "Author must be an instance of the Author class.") by compute_done.
  assert (E2 : Article_error module_state (VRef 2) (VInt 3) =
               "Magazine must be an instance of the Magazine class.") by compute_done.
  split; [exact H1|]. split.
  { destruct (Article_validation_order module_state _ _ _ H1) as (s' & Hrun & _).
    rewrite E1 in Hrun. exists s'. exact Hrun. }
  split; [exact H2|].
  destruct (Article_validation_order module_state _ _ _ H2) as (s' & Hrun & _).
  rewrite E2 in Hrun. exists s'. exact Hrun.
Defined.

(** ** What no call does *)

(** X11. No query changes the state: whether they return or raise,
    [get_all_articles], [articles], [magazines], [topic_areas],
    [contributors], [article_titles], [contributing_authors],
    [top_publisher] and the two property getters leave the store and both
    registries exactly as they were. *)
Theorem queries_leave_state_unchanged :
  read_only Article_get_all_articles ∧
  (∀ self, read_only (Author_articles self)) ∧
  (∀ self, read_only (Author_magazines self)) ∧
  (∀ self, read_only (Author_topic_areas self)) ∧
  (∀ self, read_only (Magazine_name self)) ∧
  (∀ self, read_only (Magazine_category self)) ∧
  (∀ self, read_only (Magazine_articles self)) ∧
  (∀ self, read_only (Magazine_contributors self)) ∧
  (∀ self, read_only (Magazine_article_titles self)) ∧
  (∀ self, read_only (Magazine_contributing_authors self)) ∧
  read_only Magazine_top_publisher ∧
  read_only Magazine_top_publisher_test.
Proof.
  split; [apply read_only_get_all_articles|].
  split; [apply read_only_Author_articles|].
  split; [apply read_only_Author_magazines|].
  split; [apply read_only_Author_topic_areas|].
  split; [intros self; apply read_only_getattr|].
  split; [intros self; apply read_only_getattr|].
  split; [apply read_only_Magazine_articles|].
  split; [apply read_only_Magazine_contributors|].
  split; [apply read_only_Magazine_article_titles|].
  split; [apply read_only_Magazine_contributing_authors|].
  split; [apply read_only_Magazine_top_publisher|].
  apply read_only_bind; [read_only|]. intros [|a l]; [done|].
  apply read_only_bind.
  { intros s. apply read_only_count_articles. }
  intros [|c counts]; [done|]. by destruct (py_max _ _).
Qed.

Lemma runs_all_articles cs : ∀ s,
  all_articles s `prefix_of` all_articles (foldl (flip run) s cs).
Proof.
  induction cs as [|c cs IH]; intros s; [done|]. cbn.
  etrans; [|apply IH]. apply step_registries, step_run.
Qed.

Lemma step_class_of s s' v c :
  step s s' → class_of s v = Some c → class_of s' v = Some c.
Proof.
  destruct 1; intros Hc; try done.
  - destruct s as [h ra rm]. by eapply class_of_extend in Hc.
  - destruct s as [h ra rm]. by eapply class_of_extend in Hc.
  - destruct s as [h ra rm]. by eapply class_of_extend in Hc.
  - by rewrite update_attr_class_of.
Qed.

Lemma runs_class_of cs : ∀ s v c,
  class_of s v = Some c → class_of (foldl (flip run) s cs) v = Some c.
Proof.
  induction cs as [|c0 cs IH]; intros s v c Hc; [done|]. cbn.
  apply IH. eapply step_class_of; [apply step_run|done].
Qed.

(** X12. The registry of articles is append-only and instances keep their
    class: after any sequence of constructor calls, method calls and
    attribute assignments, the old list of articles is a prefix of the new
    one (nothing is removed or reordered), and every object that was an
    instance of a class is still an instance of that class. *)
Theorem article_registry_append_only cs s :
  all_articles s `prefix_of` all_articles (foldl (flip run) s cs) ∧
  (∀ i article, all_articles s !! i = Some article →
                all_articles (foldl (flip run) s cs) !! i = Some article) ∧
  length (all_articles s) ≤ length (all_articles (foldl (flip run) s cs)) ∧
  (∀ v c, class_of s v = Some c → class_of (foldl (flip run) s cs) v = Some c).
Proof.
  pose proof (runs_all_articles cs s) as Hpre.
  split; [exact Hpre|]. split; [|split].
  - intros i article Hi. by eapply prefix_lookup_Some.
  - by apply prefix_length.
  - apply runs_class_of.
Qed.

Lemma article_registry_append_only_witness :
  all_articles module_state !! 0 = Some 4 ∧
  all_articles (foldl (flip run) module_state
                  [NewArticle (VRef 2) (VRef 1) (VStr "Sleep and Memory");
                   Assign 4 "title" (VStr "Renamed")]) !! 0 = Some 4.
Proof.
  assert (H0 : all_articles module_state !! 0 = Some 4) by compute_done.
  split; [exact H0|].
  destruct (article_registry_append_only
              [NewArticle (VRef 2) (VRef 1) (VStr "Sleep and Memory");
               Assign 4 "title" (VStr "Renamed")] module_state) as (_ & Hkeep & _).
  exact (Hkeep 0 4 H0).
Defined.



(** ** How creation and the queries compose *)

(** X14. After a successful [author.add_article(magazine, title)] the new
    article is the last element of [author.articles()] and of
    [magazine.articles()], which are otherwise as before; the lists of all
    other authors and magazines are unchanged, and the magazine's number of
    articles has grown by one. *)
Theorem add_article_then_queries s self m title
    (Hok : registry_ok s)
    (Ha : class_of s (VRef self) = Some CAuthor)
    (Hm : class_of s (VRef m) = Some CMagazine)
    (Ht : valid_title title) :
  ∃ article s',
    Author_add_article self (VRef m) title s = Returns article s' ∧
    Author_articles self s' = Returns (articles_with s "author" self ++ [article]) s' ∧
    Magazine_articles m s' = Returns (articles_with s "magazine" m ++ [article]) s' ∧
    (∀ a, a ≠ self →
          Author_articles a s' = Returns (articles_with s "author" a) s') ∧
    (∀ m', m' ≠ m →
           Magazine_articles m' s' = Returns (articles_with s "magazine" m') s') ∧
    article_count s' m = S (article_count s m).
Proof.
  assert (is_str title = true) as Hstr by by destruct title.
  assert (Hv : valid_article s (VRef self) (VRef m) title) by done.
  pose proof (registry_ok_Article_new s (VRef self) (VRef m) title Hok) as Hok'.
  eexists _, _. split.
  { rewrite Author_add_article_eq, decide_True, Hstr by done.
    by apply Article_new_valid. }
  assert (Hauthor : ∀ a,
    article_dict (VRef self) (VRef m) title !! "author" = Some (VRef a) ↔ a = self).
  { intros a. unfold article_dict.
    rewrite lookup_insert_ne, lookup_insert_ne, lookup_insert_eq by done.
    split; [by intros [= ->]|by intros ->]. }
  assert (Hmag : ∀ m',
    article_dict (VRef self) (VRef m) title !! "magazine" = Some (VRef m') ↔ m' = m).
  { intros m'. unfold article_dict.
    rewrite lookup_insert_ne, lookup_insert_eq by done.
    split; [by intros [= ->]|by intros ->]. }
  split; [|split; [|split; [|split]]].
  - rewrite Author_articles_eq, articles_with_Article_new by done.
    by rewrite decide_True by by apply Hauthor.
  - rewrite Magazine_articles_eq, articles_with_Article_new by done.
    by rewrite decide_True by by apply Hmag.
  - intros a Hne. rewrite Author_articles_eq, articles_with_Article_new by done.
    rewrite decide_False by by rewrite Hauthor. by rewrite app_nil_r.
  - intros m' Hne. rewrite Magazine_articles_eq, articles_with_Article_new by done.
    rewrite decide_False by by rewrite Hmag. by rewrite app_nil_r.
  - unfold article_count. rewrite articles_with_Article_new by done.
    rewrite decide_True by by apply Hmag. rewrite length_app. cbn. lia.
Qed.

Lemma add_article_then_queries_witness :
  registry_ok module_state ∧
  class_of module_state (VRef 3) = Some CAuthor ∧
  class_of module_state (VRef 1) = Some CMagazine ∧
  valid_title (VStr "Sleep and Memory") ∧
  ∃ article s',
    Author_add_article 3 (VRef 1) (VStr "Sleep and Memory") module_state =
      Returns article s' ∧
    Author_articles 3 s' = Returns [5; article] s' ∧
    Magazine_articles 1 s' = Returns [6; article] s'.
Proof.
  assert (Hok : registry_ok module_state) by compute_done.
  assert (Ha : class_of module_state (VRef 3) = Some CAuthor) by compute_done.
  assert (Hm : class_of module_state (VRef 1) = Some CMagazine) by compute_done.
  assert (Ht : valid_title (VStr "Sleep and Memory")) by (simpl; lia).
  split; [exact Hok|]. split; [exact Ha|]. split; [exact Hm|]. split; [exact Ht|].
  destruct (add_article_then_queries module_state 3 1 _ Hok Ha Hm Ht)
    as (article & s' & Hrun & Hauth & Hmag & _).
  assert (E1 : articles_with module_state "author" 3 = [5]) by compute_done.
  assert (E2 : articles_with module_state "magazine" 1 = [6]) by compute_done.
  rewrite E1 in Hauth. rewrite E2 in Hmag.
  exists article, s'. split; [exact Hrun|]. split; [exact Hauth|exact Hmag].
Defined.

Lemma top_of_positive s m :
  top_of s = Some m → 0 < article_count s m.
Proof.
  intros Htop. pose proof Htop as Hsome.
  apply top_of_Some in Hsome as (pre & post & Hreg & Hlo & Hhi).
  unfold top_of in Htop. destruct (all_articles s); [done|].
  destruct (py_any _) eqn:Hany; [|done].
  apply not_false_iff_true in Hany. rewrite py_any_false in Hany.
  destruct (decide (article_count s m = 0)) as [Hzero|]; [|lia].
  exfalso. apply Hany. rewrite Forall_fmap, Forall_forall. intros x Hx. cbn.
  rewrite Hreg in Hx. apply elem_of_app in Hx as [Hx|Hx].
  - apply Hlo in Hx. lia.
  - apply elem_of_cons in Hx as [->|Hx]; [done|]. apply Hhi in Hx. lia.
Qed.

(** X15. A magazine returned by [top_publisher()] is registered and has at
    least one article, so its [article_titles()] is a non-empty list; and
    no registered magazine has more articles. *)
Theorem top_publisher_has_articles s m
    (Hok : registry_ok s)
    (Hrun : Magazine_top_publisher s = Returns (Some m) s) :
  m ∈ all_magazines s ∧
  0 < article_count s m ∧
  (∀ m', m' ∈ all_magazines s → article_count s m' ≤ article_count s m) ∧
  ∃ titles, Magazine_article_titles m s = Returns (Some titles) s ∧
            length titles = article_count s m.
Proof.
  rewrite Magazine_top_publisher_eq in Hrun by done.
  apply Returns_inj in Hrun.
  pose proof (top_of_positive s m Hrun) as Hpos.
  apply top_of_Some in Hrun as (pre & post & Hreg & Hlo & Hhi).
  split; [rewrite Hreg; apply elem_of_app; right; left|].
  split; [exact Hpos|]. split.
  - intros m' Hm'. rewrite Hreg in Hm'. apply elem_of_app in Hm' as [Hx|Hx].
    + apply Hlo in Hx. lia.
    + apply elem_of_cons in Hx as [->|Hx]; [done|]. by apply Hhi.
  - unfold Magazine_article_titles, bind.
    rewrite Magazine_articles_eq by done.
    rewrite collect_attr
      by (apply articles_with_attrs; [done|rewrite !elem_of_cons; tauto]).
    unfold ret, article_count in *.
    destruct (articles_with s "magazine" m) as [|x l]; [cbn in Hpos; lia|].
    eexists. split; [done|]. by rewrite length_fmap.
Qed.

Lemma top_publisher_has_articles_witness :
  registry_ok module_state ∧
  Magazine_top_publisher module_state = Returns (Some 0) module_state ∧
  ∃ titles, Magazine_article_titles 0 module_state = Returns (Some titles) module_state ∧
            length titles = 2.
Proof.
  assert (Hok : registry_ok module_state) by compute_done.
  assert (Hrun : Magazine_top_publisher module_state = Returns (Some 0) module_state)
    by compute_done.
  split; [exact Hok|]. split; [exact Hrun|].
  destruct (top_publisher_has_articles module_state 0 Hok Hrun)
    as (_ & _ & _ & titles & Htitles & Hlen).
  assert (E : article_count module_state 0 = 2) by compute_done.
  rewrite E in Hlen. exists titles. split; [exact Htitles|exact Hlen].
Defined.

(** ** The two versions of [top_publisher] *)

Lemma Magazine_top_publisher_test_eq s :
  registry_ok s →
  Magazine_top_publisher_test s =
  Returns (if all_articles s is [] then None
           else py_max (article_count s) (all_magazines s)) s.
Proof.
  intros Hok. unfold Magazine_top_publisher_test, Article_get_all_articles, bind.
  destruct (all_articles s) as [|a ra] eqn:Ea; [done|].
  rewrite magazine_article_counts_eq by done.
  rewrite py_max_counts. unfold counts_of.
  by destruct (all_magazines s) as [|m ms].
Qed.

(** X16. The [top_publisher] of the test module and the one of the library
    differ in one case only.  The test module's version returns [None]
    exactly when there is no article or no magazine, and otherwise the first
    magazine with the largest count; the two agree whenever the library's
    version returns a magazine, and when every magazine has no article but
    articles and magazines exist, the library returns [None] while the test
    module returns the first registered magazine. *)
Theorem top_publisher_versions s (Hok : registry_ok s) :
  ∃ r r',
    Magazine_top_publisher s = Returns r s ∧
    Magazine_top_publisher_test s = Returns r' s ∧
    (r' = None ↔ all_articles s = [] ∨ all_magazines s = []) ∧
    (r ≠ None → r' = r) ∧
    (r = None → r' ≠ None →
     (∀ m, m ∈ all_magazines s → article_count s m = 0) ∧
     r' = head (all_magazines s)).
Proof.
  eexists _, _. split; [by apply Magazine_top_publisher_eq|].
  split; [by apply Magazine_top_publisher_test_eq|].
  unfold top_of.
  destruct (all_articles s) as [|a ra].
  { split; [split; [by left|done]|]. split; done. }
  destruct (all_magazines s) as [|m ms] eqn:Em.
  { split; [split; [by right|done]|]. cbn. split; done. }
  split.
  { split; [done|]. by intros [?|?]. }
  destruct (py_any _) eqn:Hany; [split; done|].
  split; [done|]. intros _ _.
  apply py_any_false in Hany. rewrite Forall_fmap, Forall_forall in Hany.
  split; [exact Hany|]. cbn [py_max head]. f_equal.
  assert (Hzero : ∀ x, x ∈ m :: ms → article_count s x = 0) by exact Hany.
  clear Hany. pose proof (Hzero m ltac:(left)) as Hm.
  assert (∀ xs best, article_count s best = 0 →
                     (∀ x, x ∈ xs → article_count s x = 0) →
                     max_from (article_count s) best xs = best) as Hstay.
  { induction xs as [|x xs IH]; intros best Hbest Hxs; [done|].
    cbn [max_from]. rewrite Hbest, (Hxs x) by left. cbn.
    apply IH; [done|]. intros y Hy. apply Hxs. by right. }
  apply Hstay; [done|]. intros x Hx. apply Hzero. by right.
Qed.

Lemma top_publisher_versions_witness :
  registry_ok orphaned_state ∧
  Magazine_top_publisher orphaned_state = Returns None orphaned_state ∧
  Magazine_top_publisher_test orphaned_state = Returns (Some 0) orphaned_state.
Proof.
  assert (Hok : registry_ok orphaned_state) by compute_done.
  split; [exact Hok|].
  destruct (top_publisher_versions orphaned_state Hok)
    as (r & r' & Hrun & Hrun' & Hnone & _ & Hdiff).
  assert (Hr : Magazine_top_publisher orphaned_state = Returns None orphaned_state)
    by compute_done.
  rewrite Hr in Hrun. apply Returns_inj in Hrun as <-.
  split; [exact Hr|]. rewrite Hrun'. f_equal.
  assert (Hra : all_articles orphaned_state = [4; 5; 6]) by compute_done.
  assert (Hrm : all_magazines orphaned_state = [0; 1]) by compute_done.
  rewrite Hra, Hrm in Hnone. rewrite Hrm in Hdiff.
  apply Hdiff; [reflexivity|]. intros Hr'. apply Hnone in Hr' as [?|?]; discriminate.
Defined.

(** ** Creating instances and [top_publisher] *)

Lemma top_of_ext s s' :
  all_articles s' = all_articles s →
  all_magazines s' = all_magazines s →
  (∀ m, article_count s' m = article_count s m) →
  top_of s' = top_of s.
Proof.
  intros Hra Hrm Hcount. unfold top_of. rewrite Hra, Hrm.
  destruct (all_articles s); [done|].
  rewrite (list_fmap_ext (article_count s') (article_count s) (all_magazines s))
    by (intros; apply Hcount).
  destruct (py_any _); [|done].
  destruct (all_magazines s) as [|m ms]; [done|]. cbn [py_max]. f_equal.
  apply max_from_ext. intros; apply Hcount.
Qed.

Lemma top_of_alloc s o :
  registry_ok s → top_of (with_heap (heap s ++ [o]) s) = top_of s.
Proof.
  intros Hok. apply top_of_ext; [done..|].
  intros m. unfold article_count. by rewrite articles_with_alloc.
Qed.

Lemma max_from_app_zero {A} (key : A → nat) (n : A) xs : ∀ best,
  key n = 0 → max_from key best (xs ++ [n]) = max_from key best xs.
Proof.
  induction xs as [|x xs IH]; intros best Hn; cbn [app max_from].
  - rewrite Hn. by destruct (key best).
  - by apply IH.
Qed.

Lemma py_any_app_zero xs : py_any (xs ++ [0]) = py_any xs.
Proof.
  unfold py_any. rewrite existsb_app. cbn. by rewrite orb_false_r.
Qed.

Lemma top_of_Magazine_new s name category :
  registry_ok s → magazine_refs_allocated s →
  top_of (State (heap s ++ [Object CMagazine (magazine_dict name category)])
                (all_articles s)
                (all_magazines s ++ [length (heap s)])) = top_of s.
Proof.
  intros Hok Hrefs. set (s' := State _ _ _).
  assert (Hcount : ∀ m, article_count s' m = article_count s m).
  { intros m. unfold article_count. f_equal. apply articles_with_agree; [done|].
    intros l Hl. destruct Hok as (_ & Ha & _). rewrite Forall_forall in Ha.
    apply Ha, article_ok_allocated in Hl. destruct s as [h ra rm].
    by apply attr_extend. }
  assert (Hzero : article_count s (length (heap s)) = 0).
  { unfold article_count, articles_with.
    destruct (filter _ _) as [|x l] eqn:E; [done|].
    assert (x ∈ x :: l) as Hx by left. rewrite <- E in Hx.
    apply list_elem_of_filter in Hx as [Hattr Hx].
    unfold magazine_refs_allocated in Hrefs. rewrite Forall_forall in Hrefs.
    specialize (Hrefs x Hx). rewrite Hattr in Hrefs. unfold allocated in Hrefs. lia. }
  unfold top_of. cbn [all_articles all_magazines s'].
  destruct (all_articles s); [done|].
  rewrite fmap_app. cbn [fmap list_fmap].
  rewrite (list_fmap_ext (article_count s') (article_count s) (all_magazines s))
    by (intros; apply Hcount).
  rewrite Hcount, Hzero, py_any_app_zero.
  destruct (py_any _) eqn:Hany; [|done].
  destruct (all_magazines s) as [|m ms]; [done|].
  cbn [app py_max]. f_equal.
  rewrite max_from_app_zero by by rewrite Hcount.
  apply max_from_ext. intros; apply Hcount.
Qed.

(** X17. Creating a Magazine or an Author, or failing to, does not change
    the answer of [top_publisher()]: a new magazine enters the scan last
    and with no article, so it is never preferred. *)
Theorem creation_keeps_top_publisher s
    (Hok : registry_ok s) (Hrefs : magazine_refs_allocated s) :
  ∃ r, Magazine_top_publisher s = Returns r s ∧
       (∀ name category s',
          s' = final_state (Magazine_new name category s) →
          Magazine_top_publisher s' = Returns r s') ∧
       (∀ name s',
          s' = final_state (Author_new name s) →
          Magazine_top_publisher s' = Returns r s').
Proof.
  exists (top_of s). split; [by apply Magazine_top_publisher_eq|]. split.
  - intros name category s' ->.
    destruct (decide (valid_name name ∧ valid_category category)) as [[Hn Hc]|Hv].
    + rewrite Magazine_new_valid by done. cbn [final_state].
      rewrite Magazine_top_publisher_eq by by apply registry_ok_Magazine_new.
      by rewrite top_of_Magazine_new.
    + destruct (Magazine_new_invalid s _ _ Hv) as (msg & o & _ & ->).
      cbn [final_state].
      rewrite Magazine_top_publisher_eq by by apply registry_ok_alloc.
      by rewrite top_of_alloc.
  - intros name s' ->.
    destruct (decide (valid_category name)) as [Hv|Hv].
    + rewrite Author_new_valid by done. cbn [final_state].
      rewrite Magazine_top_publisher_eq by by apply registry_ok_alloc.
      by rewrite top_of_alloc.
    + destruct (Author_new_invalid s _ Hv) as (msg & ->). cbn [final_state].
      rewrite Magazine_top_publisher_eq by by apply registry_ok_alloc.
      by rewrite top_of_alloc.
Qed.

Lemma creation_keeps_top_publisher_witness :
  registry_ok module_state ∧
  magazine_refs_allocated module_state ∧
  ∀ s', s' = final_state (Magazine_new (VStr "Nature") (VStr "Science") module_state) →
        Magazine_top_publisher s' = Returns (Some 0) s'.
Proof.
  assert (Hok : registry_ok module_state) by compute_done.
  assert (Hrefs : magazine_refs_allocated module_state) by compute_done.
  split; [exact Hok|]. split; [exact Hrefs|].
  destruct (creation_keeps_top_publisher module_state Hok Hrefs) as (r & Hrun & Hmag & _).
  assert (Hr : Magazine_top_publisher module_state = Returns (Some 0) module_state)
    by compute_done.
  rewrite Hr in Hrun. apply Returns_inj in Hrun as <-.
  intros s' Hs'. exact (Hmag _ _ s' Hs').
Defined.

(** ** Queries on attributes that hold no instance *)

Lemma filterM_raises {A} (p : A → M bool) e l s :
  (∀ x, x ∈ l → (∃ b, p x s = Returns b s) ∨ p x s = Raises e s) →
  (∃ x, x ∈ l ∧ p x s = Raises e s) →
  filterM p l s = Raises e s.
Proof.
  induction l as [|x l IH]; intros Hall (y & Hy & Hraise).
  { by apply elem_of_nil in Hy. }
  cbn [filterM]. unfold bind at 1.
  destruct (Hall x ltac:(left)) as [[b Hb]|Hx]; [|by rewrite Hx].
  rewrite Hb. unfold bind. rewrite IH; [done| |].
  - intros z Hz. apply Hall. by right.
  - apply elem_of_cons in Hy as [->|Hy]; [congruence|]. by exists y.
Qed.

Lemma mapM_raises {A B} (f : A → M B) e l s :
  (∀ x, x ∈ l → (∃ b, f x s = Returns b s) ∨ f x s = Raises e s) →
  (∃ x, x ∈ l ∧ f x s = Raises e s) →
  mapM f l s = Raises e s.
Proof.
  induction l as [|x l IH]; intros Hall (y & Hy & Hraise).
  { by apply elem_of_nil in Hy. }
  cbn [mapM]. unfold bind at 1.
  destruct (Hall x ltac:(left)) as [[b Hb]|Hx]; [|by rewrite Hx].
  rewrite Hb. unfold bind. rewrite IH; [done| |].
  - intros z Hz. apply Hall. by right.
  - apply elem_of_cons in Hy as [->|Hy]; [congruence|]. by exists y.
Qed.

Lemma getattr_cases v name s :
  (∃ x, getattr v name s = Returns x s) ∨ getattr v name s = Raises AttributeError s.
Proof.
  unfold getattr. destruct v as [| | |l]; try by right.
  destruct (heap s !! l) as [o|]; [|by right].
  destruct (obj_dict o !! name); [left; by eexists|by right].
Qed.

Lemma get_category_cases v s :
  (∃ x, get_category v s = Returns x s) ∨ get_category v s = Raises AttributeError s.
Proof.
  unfold get_category, Magazine_category.
  destruct v as [| | |l]; try apply getattr_cases.
  destruct (class_of s (VRef l)) as [[]|]; apply getattr_cases.
Qed.

Lemma bind_raises {A B} (c : M A) (k : A → M B) s e s' :
  c s = Raises e s' → bind c k s = Raises e s'.
Proof. unfold bind. by intros ->. Qed.

Lemma call_articles_raises s v :
  no_articles_method s v → call_articles v s = Raises AttributeError s.
Proof.
  intros [Ha Hm]. unfold call_articles. destruct v as [| | |l]; try done.
  by destruct (class_of s (VRef l)) as [[]|].
Qed.

(** X18. [magazine.contributing_authors()] raises [AttributeError], and
    changes nothing, as soon as one article of the magazine has an author
    attribute that is neither an Author nor a Magazine instance (as after
    [article.author = 7]): such a value has no [articles()]. *)
Theorem Magazine_contributing_authors_raises s self article v
    (Hok : registry_ok s)
    (Hin : article ∈ articles_with s "magazine" self)
    (Hattr : attr s article "author" = Some v)
    (Hbad : no_articles_method s v) :
  Magazine_contributing_authors self s = Raises AttributeError s.
Proof.
  unfold Magazine_contributing_authors. unfold bind at 1.
  rewrite Magazine_contributors_eq by done.
  set (cs := list_of_set (attr_of s "author" <$> articles_with s "magazine" self)).
  assert (Hv : v ∈ cs).
  { apply elem_of_list_of_set, elem_of_collect.
    - apply articles_with_attrs; [done|]. rewrite !elem_of_cons. tauto.
    - by exists article. }
  destruct cs as [|c cs0] eqn:Ecs; [by apply elem_of_nil in Hv|].
  rewrite <- Ecs in *. unfold bind at 1.
  rewrite (filterM_raises _ AttributeError); [done| |].
  - intros x _.
    destruct (decide (class_of s x = Some CAuthor)) as [Ha|Ha].
    { destruct x as [| | |l]; try done. left. eexists. by apply frequent_test. }
    destruct (decide (class_of s x = Some CMagazine)) as [Hm|Hm].
    { destruct x as [| | |l]; try done. left.
      erewrite bind_eq; [|by apply call_articles_magazine].
      erewrite bind_eq; [by eexists|].
      apply scan_attr, articles_with_attrs; [done|]. rewrite !elem_of_cons. tauto. }
    right. by apply bind_raises, call_articles_raises.
  - exists v. split; [done|]. by apply bind_raises, call_articles_raises.
Qed.

Lemma Magazine_contributing_authors_raises_witness :
  registry_ok anonymous_state ∧
  4 ∈ articles_with anonymous_state "magazine" 0 ∧
  attr anonymous_state 4 "author" = Some (VInt 7) ∧
  no_articles_method anonymous_state (VInt 7) ∧
  Magazine_contributing_authors 0 anonymous_state = Raises AttributeError anonymous_state.
Proof.
  assert (Hok : registry_ok anonymous_state) by compute_done.
  assert (Hin : 4 ∈ articles_with anonymous_state "magazine" 0) by compute_done.
  assert (Hattr : attr anonymous_state 4 "author" = Some (VInt 7)) by compute_done.
  assert (Hbad : no_articles_method anonymous_state (VInt 7)) by compute_done.
  split; [exact Hok|]. split; [exact Hin|]. split; [exact Hattr|]. split; [exact Hbad|].
  exact (Magazine_contributing_authors_raises anonymous_state 0 4 (VInt 7)
           Hok Hin Hattr Hbad).
Defined.

(** X19. [author.topic_areas()] raises [AttributeError], and changes
    nothing, as soon as one article of the author has a magazine attribute
    that is no instance at all (as after [article.magazine = None]): such a
    value has no [category]. *)
Theorem Author_topic_areas_raises s self article v
    (Hok : registry_ok s)
    (Hin : article ∈ articles_with s "author" self)
    (Hattr : attr s article "magazine" = Some v)
    (Hbad : not_an_instance v) :
  Author_topic_areas self s = Raises AttributeError s.
Proof.
  unfold Author_topic_areas. unfold bind at 1.
  rewrite Author_magazines_eq by done.
  set (ms := list_of_set (attr_of s "magazine" <$> articles_with s "author" self)).
  assert (Hv : v ∈ ms).
  { apply elem_of_list_of_set, elem_of_collect.
    - apply articles_with_attrs; [done|]. rewrite !elem_of_cons. tauto.
    - by exists article. }
  destruct ms as [|m ms0] eqn:Ems; [by apply elem_of_nil in Hv|].
  rewrite <- Ems in *. unfold bind at 1.
  rewrite (mapM_raises _ AttributeError); [done| |].
  - intros x _. apply get_category_cases.
  - exists v. split; [done|]. by destruct v.
Qed.

Lemma Author_topic_areas_raises_witness :
  registry_ok orphaned_state ∧
  4 ∈ articles_with orphaned_state "author" 2 ∧
  attr orphaned_state 4 "magazine" = Some VNone ∧
  not_an_instance VNone ∧
  Author_topic_areas 2 orphaned_state = Raises AttributeError orphaned_state.
Proof.
  assert (Hok : registry_ok orphaned_state) by compute_done.
  assert (Hin : 4 ∈ articles_with orphaned_state "author" 2) by compute_done.
  assert (Hattr : attr orphaned_state 4 "magazine" = Some VNone) by compute_done.
  split; [exact Hok|]. split; [exact Hin|]. split; [exact Hattr|]. split; [exact I|].
  exact (Author_topic_areas_raises orphaned_state 2 4 VNone Hok Hin Hattr I).
Defined.

(** ** The test that runs when the module is imported *)

Lemma class_of_grow s s' o v c :
  heap s' = heap s ++ [o] → class_of s v = Some c → class_of s' v = Some c.
Proof.
  intros Hh Hc. destruct s as [h ra rm], s' as [h' ra' rm']. cbn in Hh. subst h'.
  by apply (class_of_extend h o ra rm).
Qed.

Lemma class_of_newest s s' o :
  heap s' = heap s ++ [o] → class_of s' (VRef (length (heap s))) = Some (obj_class o).
Proof.
  intros Hh. destruct s as [h ra rm], s' as [h' ra' rm']. cbn in Hh. subst h'.
  apply class_of_last.
Qed.

Lemma Magazine_new_post s name category :
  valid_name name → valid_category category → registry_ok s →
  ∃ s', Magazine_new name category s = Returns (length (heap s)) s' ∧
        registry_ok s' ∧
        heap s' = heap s ++ [Object CMagazine (magazine_dict name category)] ∧
        all_articles s' = all_articles s ∧
        all_magazines s' = all_magazines s ++ [length (heap s)].
Proof.
  intros Hn Hc Hok. eexists. split; [by apply Magazine_new_valid|].
  split; [by apply registry_ok_Magazine_new|done].
Qed.

Lemma Author_new_post s name :
  valid_category name → registry_ok s →
  ∃ s', Author_new name s = Returns (length (heap s)) s' ∧
        registry_ok s' ∧
        heap s' = heap s ++ [Object CAuthor (<["name" := name]> ∅)] ∧
        all_articles s' = all_articles s ∧
        all_magazines s' = all_magazines s.
Proof.
  intros Hn Hok. eexists. split; [by apply Author_new_valid|].
  split; [by apply registry_ok_alloc|done].
Qed.

Lemma Article_new_post s author magazine title :
  valid_article s author magazine title → registry_ok s →
  ∃ s', Article_new author magazine title s = Returns (length (heap s)) s' ∧
        registry_ok s' ∧
        heap s' = heap s ++ [Object CArticle (article_dict author magazine title)] ∧
        all_articles s' = all_articles s ++ [length (heap s)] ∧
        all_magazines s' = all_magazines s ∧
        ∀ m, article_count s' m =
             article_count s m +
             (if decide (magazine = VRef m) then 1 else 0).
Proof.
  intros Hv Hok. eexists. split; [by apply Article_new_valid|].
  split; [by apply registry_ok_Article_new|]. do 3 (split; [done|]).
  intros m. unfold article_count. rewrite articles_with_Article_new by done.
  rewrite length_app. f_equal. unfold article_dict.
  rewrite lookup_insert_ne, lookup_insert_eq by done.
  destruct (decide (magazine = VRef m)) as [->|Hne].
  - by rewrite decide_True.
  - rewrite decide_False; [done|congruence].
Qed.

(** X20. Whatever the registries hold before, [test_top_publisher()] runs
    to its end without an [AssertionError]; it first empties both
    registries, so that afterwards they hold exactly the two magazines and
    the three articles it created, and the objects that existed before are
    untouched. *)
Theorem test_top_publisher_from_any_state s :
  ∃ s', test_top_publisher s = Returns tt s' ∧
        all_magazines s' = [length (heap s); 1 + length (heap s)] ∧
        all_articles s' =
          [4 + length (heap s); 5 + length (heap s); 6 + length (heap s)] ∧
        registry_ok s' ∧
        ∀ l, allocated s l → heap s' !! l = heap s !! l.
Proof.
  unfold test_top_publisher.
  erewrite bind_eq; [|reflexivity].
  remember (State (heap s) [] []) as s0 eqn:E0.
  assert (Hok0 : registry_ok s0) by (subst s0; repeat split; constructor).
  assert (Hh0 : heap s0 = heap s) by by subst s0.
  assert (Ha0 : all_articles s0 = []) by by subst s0.
  assert (Hr0 : all_magazines s0 = []) by by subst s0.
  clear E0.
  destruct (Magazine_new_post s0 (VStr "Tech Today") (VStr "Technology"))
    as (s1 & Hrun1 & Hok1 & Hh1 & Ha1 & Hr1); [simpl; lia..|done|].
  destruct (Magazine_new_post s1 (VStr "Health Matters") (VStr "Health"))
    as (s2 & Hrun2 & Hok2 & Hh2 & Ha2 & Hr2); [simpl; lia..|done|].
  destruct (Author_new_post s2 (VStr "Alice")) as (s3 & Hrun3 & Hok3 & Hh3 & Ha3 & Hr3);
    [simpl; lia|done|].
  destruct (Author_new_post s3 (VStr "Bob")) as (s4 & Hrun4 & Hok4 & Hh4 & Ha4 & Hr4);
    [simpl; lia|done|].
  set (mag1 := length (heap s0)) in *. set (mag2 := length (heap s1)) in *.
  set (author1 := length (heap s2)) in *. set (author2 := length (heap s3)) in *.
  assert (Hm1 : class_of s4 (VRef mag1) = Some CMagazine).
  { do 3 (eapply class_of_grow; [eassumption|]). exact (class_of_newest s0 s1 _ Hh1). }
  assert (Hm2 : class_of s4 (VRef mag2) = Some CMagazine).
  { do 2 (eapply class_of_grow; [eassumption|]). exact (class_of_newest s1 s2 _ Hh2). }
  assert (Hau1 : class_of s4 (VRef author1) = Some CAuthor).
  { eapply class_of_grow; [eassumption|]. exact (class_of_newest s2 s3 _ Hh3). }
  assert (Hau2 : class_of s4 (VRef author2) = Some CAuthor).
  { exact (class_of_newest s3 s4 _ Hh4). }
  destruct (Article_new_post s4 (VRef author1) (VRef mag1) (VStr "Latest Tech Trends"))
    as (s5 & Hrun5 & Hok5 & Hh5 & Ha5 & Hr5 & Hc5); [|done|].
  { repeat split; [done..|simpl; lia|simpl; lia]. }
  destruct (Article_new_post s5 (VRef author2) (VRef mag1) (VStr "AI in Healthcare"))
    as (s6 & Hrun6 & Hok6 & Hh6 & Ha6 & Hr6 & Hc6); [|done|].
  { repeat split; [by eapply class_of_grow..|simpl; lia|simpl; lia]. }
  destruct (Article_new_post s6 (VRef author1) (VRef mag2) (VStr "Dietary Tips for 2024"))
    as (s7 & Hrun7 & Hok7 & Hh7 & Ha7 & Hr7 & Hc7); [|done|].
  { repeat split; [do 2 (eapply class_of_grow; [eassumption|]); done..
                  |simpl; lia|simpl; lia]. }
  assert (L0 : mag1 = length (heap s)) by (unfold mag1; by rewrite Hh0).
  assert (L1 : mag2 = 1 + length (heap s)).
  { unfold mag2. rewrite Hh1, length_app. cbn. fold mag1. lia. }
  assert (L2 : author1 = 2 + length (heap s)).
  { unfold author1. rewrite Hh2, length_app. cbn. fold mag2. lia. }
  assert (L3 : author2 = 3 + length (heap s)).
  { unfold author2. rewrite Hh3, length_app. cbn. fold author1. lia. }
  assert (L4 : length (heap s4) = 4 + length (heap s)).
  { rewrite Hh4, length_app. cbn. fold author2. lia. }
  assert (L5 : length (heap s5) = 5 + length (heap s)).
  { rewrite Hh5, length_app. cbn. lia. }
  assert (L6 : length (heap s6) = 6 + length (heap s)).
  { rewrite Hh6, length_app. cbn. lia. }
  assert (Hregm : all_magazines s7 = [mag1; mag2]).
  { by rewrite Hr7, Hr6, Hr5, Hr4, Hr3, Hr2, Hr1, Hr0. }
  assert (Hrega : all_articles s7 =
                  [length (heap s4); length (heap s5); length (heap s6)]).
  { by rewrite Ha7, Ha6, Ha5, Ha4, Ha3, Ha2, Ha1, Ha0. }
  assert (Hc4 : ∀ m, article_count s4 m = 0).
  { intros m. unfold article_count, articles_with.
    by rewrite Ha4, Ha3, Ha2, Ha1, Ha0. }
  assert (Hne : mag2 ≠ mag1) by lia.
  assert (Hcount1 : article_count s7 mag1 = 2).
  { rewrite Hc7, Hc6, Hc5, Hc4. rewrite !(decide_True (P := VRef mag1 = VRef mag1)) by done.
    rewrite decide_False; [done|congruence]. }
  assert (Hcount2 : article_count s7 mag2 = 1).
  { rewrite Hc7, Hc6, Hc5, Hc4. rewrite (decide_True (P := VRef mag2 = VRef mag2)) by done.
    rewrite !decide_False; [done|congruence..]. }
  assert (Htop : top_of s7 = Some mag1).
  { unfold top_of. rewrite Hrega, Hregm. cbn [fmap list_fmap py_max max_from].
    rewrite Hcount1, Hcount2. done. }
  exists s7. split.
  { do 7 (erewrite bind_eq; [|eassumption]).
    erewrite bind_eq; [|by apply Magazine_top_publisher_eq].
    rewrite Htop. by rewrite bool_decide_eq_true_2. }
  split; [by rewrite Hregm, L0, L1|].
  split; [by rewrite Hrega, L4, L5, L6|].
  split; [done|].
  intros l Hl. unfold allocated in Hl.
  rewrite Hh7, lookup_app_l by lia. rewrite Hh6, lookup_app_l by lia.
  rewrite Hh5, lookup_app_l by lia.
  rewrite Hh4, lookup_app_l by (fold author2; lia).
  rewrite Hh3, lookup_app_l by (fold author1; lia).
  rewrite Hh2, lookup_app_l by (fold mag2; lia).
  rewrite Hh1, lookup_app_l by (fold mag1; lia).
  by rewrite Hh0.
Qed.

Lemma test_top_publisher_from_any_state_witness :
  allocated module_state 0 ∧
  ∃ s', test_top_publisher module_state = Returns tt s' ∧
        all_magazines s' = [7; 8] ∧
        all_articles s' = [11; 12; 13] ∧
        heap s' !! 0 = heap module_state !! 0.
Proof.
  assert (Hl : allocated module_state 0) by compute_done.
  split; [exact Hl|].
  destruct (test_top_publisher_from_any_state module_state)
    as (s' & Hrun & Hrm & Hra & _ & Hold).
  assert (Hlen : length (heap module_state) = 7) by compute_done.
  rewrite Hlen in Hrm, Hra.
  exists s'. split; [exact Hrun|]. split; [exact Hrm|]. split; [exact Hra|].
  exact (Hold 0 Hl).
Defined.

(** ** The messages of [add_article] *)

(** X21. [author.add_article(magazine, title)] checks the magazine, then
    the type of the title, and leaves the length of the title to
    [Article(...)]: each failure has its own message, and the first two
    happen before anything is allocated, so the state is exactly as
    before. *)
Theorem Author_add_article_errors s self magazine title
    (Ha : class_of s (VRef self) = Some CAuthor) :
  (class_of s magazine ≠ Some CMagazine →
   Author_add_article self magazine title s =
   Raises (ValueError "Magazine must be an instance of the Magazine class.") s) ∧
  (class_of s magazine = Some CMagazine → is_str title = false →
   Author_add_article self magazine title s =
   Raises (ValueError "Title must be a string.") s) ∧
  (class_of s magazine = Some CMagazine → is_str title = true → ¬ valid_title title →
   ∃ s', Author_add_article self magazine title s =
         Raises (ValueError "Title must be a string between 5 and 50 characters.") s' ∧
         unaltered s s').
Proof.
  rewrite Author_add_article_eq. split; [|split].
  - intros Hm. by rewrite decide_False.
  - intros Hm Hstr. by rewrite decide_True, Hstr.
  - intros Hm Hstr Ht. rewrite decide_True, Hstr by done.
    assert (Hv : ¬ valid_article s (VRef self) magazine title) by by intros (_ & _ & ?).
    destruct (Article_new_invalid s _ _ _ Hv) as [msg Hrun].
    eexists. split; [|apply unaltered_alloc].
    rewrite Hrun. do 2 f_equal.
    destruct s as [h ra rm].
    unfold Article_new, Article__init__, new, isinstance, bind, with_heap in Hrun.
    revert Hrun. run_init.
    destruct (negb (is_str title) || _) eqn:E.
    + by intros [= ->].
    + by apply is_str_valid_title in E.
Qed.

Lemma Author_add_article_errors_witness :
  class_of module_state (VRef 2) = Some CAuthor ∧
  class_of module_state (VRef 0) = Some CMagazine ∧
  is_str (VInt 500) = false ∧
  Author_add_article 2 (VRef 0) (VInt 500) module_state =
    Raises (ValueError "Title must be a string.") module_state ∧
  class_of module_state (VRef 2) ≠ Some CMagazine ∧
  Author_add_article 2 (VRef 2) (VStr "Hello") module_state =
    Raises (ValueError "Magazine must be an instance of the Magazine class.") module_state.
Proof.
  assert (Ha : class_of module_state (VRef 2) = Some CAuthor) by compute_done.
  assert (Hm : class_of module_state (VRef 0) = Some CMagazine) by compute_done.
  assert (Hn : class_of module_state (VRef 2) ≠ Some CMagazine).
  { rewrite Ha. discriminate. }
  split; [exact Ha|]. split; [exact Hm|]. split; [reflexivity|]. split.
  - destruct (Author_add_article_errors module_state 2 (VRef 0) (VInt 500) Ha)
      as (_ & Hstr & _).
    exact (Hstr Hm eq_refl).
  - split; [exact Hn|].
    destruct (Author_add_article_errors module_state 2 (VRef 2) (VStr "Hello") Ha)
      as (Hmag & _).
    exact (Hmag Hn).
Defined.
